(** * aws_athena_info: query dispatch, validation and record normalisation

    A shallow embedding of [src/aws_athena_info.py] (the Ansible module
    [aws_athena_info]) and the properties its specification states.

    The module is a thin dispatcher: the framework validates the task
    arguments against declarative tables, [_athena] selects one of four
    list operations of the Athena client, and [main] walks the pages,
    renames the keys of every record to snake_case and exits with the
    records under one output key. *)

From Stdlib Require Import Ascii String.

From stdpp Require Import gmap strings list fin_maps.

Local Open Scope string_scope.

(** ** Python values *)

(** The JSON-like values the service returns.  A Python [dict] keeps its
    keys unique and in insertion order: it is an association list here,
    and [dict_wf] states the uniqueness. *)
#[local] Unset Elimination Schemes.

Inductive value : Type :=
  | VNone
  | VBool (b : bool)
  | VInt (n : Z)
  | VStr (s : string)
  | VList (l : list value)
  | VDict (d : list (string * value)).

#[local] Set Elimination Schemes.

(** Induction over values that reaches inside lists and dicts. *)
Section value_induction.

Variable P : value → Prop.

Hypothesis HNone : P VNone.

Hypothesis HBool : ∀ b, P (VBool b).

Hypothesis HInt : ∀ n, P (VInt n).

Hypothesis HStr : ∀ s, P (VStr s).

Hypothesis HList : ∀ l, Forall P l → P (VList l).

Hypothesis HDict : ∀ d, Forall (λ kv, P kv.2) d → P (VDict d).

Fixpoint value_nested_ind (v : value) : P v :=
    match v with
    | VNone => HNone
    | VBool b => HBool b
    | VInt n => HInt n
    | VStr s => HStr s
    | VList l =>
        HList l ((fix go (l : list value) : Forall P l :=
                    match l with
                    | [] => Forall_nil_2 P
                    | x :: l' => Forall_cons_2 P x l' (value_nested_ind x) (go l')
                    end) l)
    | VDict d =>
        HDict d ((fix go (d : list (string * value)) : Forall (λ kv, P kv.2) d :=
                    match d with
                    | [] => Forall_nil_2 _
                    | kv :: d' =>
                        Forall_cons_2 (λ kv, P kv.2) kv d' (value_nested_ind kv.2) (go d')
                    end) d)
    end.

End value_induction.

(** [d[k] = v] on a dict: overwrite in place, or append a new key. *)
Fixpoint dict_set (d : list (string * value)) (k : string) (v : value)
  : list (string * value) :=
  match d with
  | [] => [(k, v)]
  | (k', v') :: d' =>
      if String.eqb k' k then (k, v) :: d' else (k', v') :: dict_set d' k v
  end.

Fixpoint dict_get (d : list (string * value)) (k : string) : option value :=
  match d with
  | [] => None
  | (k', v') :: d' => if String.eqb k' k then Some v' else dict_get d' k
  end.

(** Every dict inside the value has pairwise distinct keys. *)
Fixpoint dict_wf (v : value) : bool :=
  match v with
  | VList l => forallb dict_wf l
  | VDict d => bool_decide (NoDup d.*1) && forallb (λ kv, dict_wf kv.2) d
  | _ => true
  end.

(** ** Characters *)

Definition LF : ascii := "010"%char.

Definition is_upper (c : ascii) : bool :=
  let n := nat_of_ascii c in (65 <=? n)%nat && (n <=? 90)%nat.

Definition is_lower (c : ascii) : bool :=
  let n := nat_of_ascii c in (97 <=? n)%nat && (n <=? 122)%nat.

Definition is_digit (c : ascii) : bool :=
  let n := nat_of_ascii c in (48 <=? n)%nat && (n <=? 57)%nat.

Definition to_lower (c : ascii) : ascii :=
  if is_upper c then ascii_of_nat (nat_of_ascii c + 32) else c.

(** [str.lower()] on the ASCII letters. *)
Fixpoint lower (s : string) : string :=
  match s with
  | EmptyString => EmptyString
  | String c s' => String (to_lower c) (lower s')
  end.

Definition startswith (c : ascii) (s : string) : bool :=
  match s with
  | String c' _ => Ascii.eqb c' c
  | EmptyString => false
  end.

Definition drop_first (s : string) : string :=
  match s with
  | String _ s' => s'
  | EmptyString => EmptyString
  end.

(** ** The key renamer *)

(** [camel_dict_to_snake_dict] is imported at line 151 from the
    [amazon.aws] collection's [module_utils]; its body is not part of
    [src/].  The spec (section 4.2) says that it "renames every key from
    the wire's mixed/camel convention to snake_case (recursively through
    nested mappings and sequences of mappings)" and that it is pure and
    deterministic.  The renaming of one key is fixed here the way the
    helper does it upstream, by three regular-expression substitutions
    followed by [lower()]:
      - [[A-Z]{3,}s$] is replaced by ["_"] and the match in lower case
        (pluralised abbreviations: [TargetGroupARNs]);
      - [(.)([A-Z][a-z]+)] is replaced by [\1_\2];
      - [([a-z0-9])([A-Z]+)] is replaced by [\1_\2].
    Keys are byte strings and the character classes are the ASCII ones. *)

(** Modelled from the spec: helper of the key renamer (not in [src/]).
    The longest run of upper-case letters at the head, and what follows. *)
Fixpoint span_upper (s : string) : string * string :=
  match s with
  | String c s' =>
      if is_upper c
      then let '(run, rest) := span_upper s' in (String c run, rest)
      else (EmptyString, s)
  | EmptyString => (EmptyString, EmptyString)
  end.

(** Modelled from the spec: helper of the key renamer (not in [src/]).
    A match of [[A-Z]{3,}s$] starting at the head of [s]: the matched text
    and the remainder ([$] also matches before one final line feed). *)
Definition plural_at (s : string) : option (string * string) :=
  let '(run, rest) := span_upper s in
  if (3 <=? String.length run)%nat then
    if String.eqb rest "s" then Some (run ++ "s", EmptyString)
    else if String.eqb rest (String "s" (String LF EmptyString))
         then Some (run ++ "s", String LF EmptyString)
         else None
  else None.

(** Modelled from the spec: first pass of the key renamer (not in [src/]),
    [re.sub(r'[A-Z]{3,}s$', lambda m: '_' + m.group(0).lower(), s)]: the
    leftmost match is replaced; nothing after it can match again. *)
Fixpoint sub_plural (s : string) : string :=
  match plural_at s with
  | Some (m, rest) => String "_" (lower m ++ rest)
  | None =>
      match s with
      | String c s' => String c (sub_plural s')
      | EmptyString => EmptyString
      end
  end.

(** Modelled from the spec: second pass of the key renamer (not in
    [src/]), [re.sub(r'(.)([A-Z][a-z]+)', r'\1_\2', s)].  [in_run] holds while the
    greedy [[a-z]+] of the current match is still consuming. *)
Fixpoint sub_first_cap (in_run : bool) (s : string) : string :=
  match s with
  | EmptyString => EmptyString
  | String c r1 =>
      if in_run && is_lower c then String c (sub_first_cap true r1)
      else
        match r1 with
        | String u (String l t) =>
            if negb (Ascii.eqb c LF) && is_upper u && is_lower l
            then String c (String "_" (String u (String l (sub_first_cap true t))))
            else String c (sub_first_cap false r1)
        | _ => String c (sub_first_cap false r1)
        end
  end.

(** Modelled from the spec: third pass of the key renamer (not in
    [src/]), [re.sub(r'([a-z0-9])([A-Z]+)', r'\1_\2', s)]. *)
Fixpoint sub_all_cap (in_run : bool) (s : string) : string :=
  match s with
  | EmptyString => EmptyString
  | String c r1 =>
      if in_run && is_upper c then String c (sub_all_cap true r1)
      else
        match r1 with
        | String u t =>
            if (is_lower c || is_digit c) && is_upper u
            then String c (String "_" (String u (sub_all_cap true t)))
            else String c (sub_all_cap false r1)
        | EmptyString => String c EmptyString
        end
  end.

(** Modelled from the spec: the renaming of one key to snake_case (the
    helper is not in [src/]). *)
Definition _camel_to_snake (name : string) : string :=
  let s1 := sub_plural name in
  let s1 := if startswith "_" s1 && negb (startswith "_" name)
            then drop_first s1 else s1 in
  let s2 := sub_first_cap false s1 in
  lower (sub_all_cap false s2).

(** Modelled from the spec: the renaming "recursively through nested
    mappings and sequences of mappings" (the helper is not in [src/]).
    A dict is rebuilt key by key (a later key that
    renames to an earlier one overwrites it), a list is mapped over, any
    other value is kept. *)
Fixpoint snake_value (v : value) : value :=
  match v with
  | VDict d =>
      VDict (fold_left
               (λ acc kv, dict_set acc (_camel_to_snake kv.1) (snake_value kv.2))
               d [])
  | VList l => VList (map snake_value l)
  | _ => v
  end.

(** Python exceptions that can escape the module. *)
Inductive aws_error : Type :=
  | BotoCoreError (diag : string)
  | ClientError (diag : string).

Inductive exn : Type :=
  | AwsError (e : aws_error)
  | TypeError (what : string)
  | KeyError (key : string)
  | AttributeError (what : string).

(** Modelled from the spec: [camel_dict_to_snake_dict(record)], imported at
    line 151 and not in [src/]: the normalizer of section 4.2.  It reads
    [record.items()], which only a dict has. *)
Definition camel_dict_to_snake_dict (record : value) : exn + value :=
  match record with
  | VDict _ => inr (snake_value record)
  | _ => inl (AttributeError "items")
  end.

(** A key that is already snake_case: lower-case letters, digits and
    underscores only. *)
Definition snake_char (c : ascii) : bool :=
  is_lower c || is_digit c || Ascii.eqb c "_".

Fixpoint is_snake_key (s : string) : bool :=
  match s with
  | EmptyString => true
  | String c s' => snake_char c && is_snake_key s'
  end.

(** All keys of all dicts inside the value are snake_case. *)
Fixpoint snake_keys (v : value) : bool :=
  match v with
  | VDict d => forallb (λ kv, is_snake_key kv.1 && snake_keys kv.2) d
  | VList l => forallb snake_keys l
  | _ => true
  end.

(** ** Task arguments and their validation *)

(** A task argument as the framework hands it over: YAML null, a boolean
    or a string. *)
Inductive arg : Type :=
  | ANone
  | ABool (b : bool)
  | AStr (s : string).

#[global] Instance arg_eq_dec : EqDecision arg.
Proof. solve_decision. Defined.

(** Python truthiness, as [bool(x)] and [if x:] compute it. *)
Definition truthy (a : arg) : bool :=
  match a with
  | ANone => false
  | ABool b => b
  | AStr s => negb (String.eqb s "")
  end.

Inductive arg_type : Type := type_str | type_bool.

(** [argument_spec] of [main] (lines 186-192): option, type, aliases.  An
    option without [type] is a string; [type=bool] is the Python callable
    [bool], so the framework converts the value with [bool(value)]. *)
Definition argument_spec : list (string * arg_type * list string) :=
  [ ("name", type_str, ["catalog_name"]);
    ("list_databases", type_bool, []);
    ("database_name", type_str, []);
    ("list_database_tables", type_bool, []);
    ("list_work_groups", type_bool, []) ].

(** [required_if] (lines 197-200). *)
Definition required_if : list (string * arg * list string) :=
  [ ("list_databases", ABool true, ["name"]);
    ("list_database_tables", ABool true, ["name"; "database_name"]) ].

(** [mutually_exclusive] (lines 201-205). *)
Definition mutually_exclusive : list (list string) :=
  [ ["list_databases"; "list_database_tables"; "list_work_groups"];
    ["name"; "list_work_groups"];
    ["database_name"; "list_work_groups"] ].

Inductive validation_error : Type :=
  | MutuallyExclusive (checks : list (list string))
  | RequiredIf (missing : list (string * list string)).

(** The arguments are validated by the framework class [AnsibleAWSModule]
    (imported at line 150), whose code is not part of [src/].  It
    interprets the three tables above as the validation policy of the
    spec (section 4.1) states it: the options of one [mutually_exclusive]
    group are incompatible, they cannot be supplied together; an entry of
    [required_if] requires its options to be present when its flag is
    true.  The steps are taken in the framework's order: aliases, mutual
    exclusion, type conversion, [required_if], defaults.  The connection
    options the class adds (region, profile, credentials) are outside the
    model. *)

(** Modelled from the spec: a step of the framework's validation (not in
    [src/]).  An alias that was supplied ([name (alias catalog_name)],
    section 6) is copied to the option it stands for. *)
Definition handle_aliases (spec : list (string * arg_type * list string))
    (p : gmap string arg) : gmap string arg :=
  fold_left
    (λ p '(k, _, aliases),
       fold_left (λ p alias,
                    match p !! alias with
                    | Some v => <[k := v]> p
                    | None => p
                    end) aliases p)
    spec p.

(** Modelled from the spec: a step of the framework's validation (not in
    [src/]).  How many of [terms] were supplied: the test is on the key,
    not on its value.  (No table above repeats a term.) *)
Definition count_terms (terms : list string) (p : gmap string arg) : nat :=
  length (filter (λ k, is_Some (p !! k)) terms).

(** Modelled from the spec: a step of the framework's validation (not in
    [src/]).  The groups of which more than one option was supplied. *)
Definition check_mutually_exclusive (terms : list (list string))
    (p : gmap string arg) : list (list string) :=
  filter (λ check, 1 < count_terms check p) terms.

(** Modelled from the spec: a step of the framework's validation (not in
    [src/]).  [type_checker(value)] of an option: [str] keeps a string
    and prints a boolean; [bool] takes the truth value. *)
Definition coerce (ty : arg_type) (v : arg) : arg :=
  match ty, v with
  | _, ANone => ANone
  | type_str, ABool b => AStr (if b then "True" else "False")
  | type_str, AStr s => AStr s
  | type_bool, _ => ABool (truthy v)
  end.

(** Modelled from the spec: a step of the framework's validation (not in
    [src/]).  Every supplied option is converted to its declared type. *)
Definition check_argument_types (spec : list (string * arg_type * list string))
    (p : gmap string arg) : gmap string arg :=
  fold_left
    (λ p '(k, ty, _),
       match p !! k with
       | Some v => <[k := coerce ty v]> p
       | None => p
       end)
    spec p.

(** Modelled from the spec: a step of the framework's validation (not in
    [src/]).  The entries whose flag has the stated value while some of
    their options are not present, with the options missing. *)
Definition check_required_if (reqs : list (string * arg * list string))
    (p : gmap string arg) : list (string * list string) :=
  omap (λ '(key, val, requirements),
          if bool_decide (p !! key = Some val) then
            match filter (λ r, count_terms [r] p = 0) requirements with
            | [] => None
            | (_ :: _) as missing => Some (key, missing)
            end
          else None)
       reqs.

(** Modelled from the spec: a step of the framework's validation (not in
    [src/]).  Options that were not supplied default to [None]. *)
Definition set_defaults (spec : list (string * arg_type * list string))
    (p : gmap string arg) : gmap string arg :=
  fold_left
    (λ p '(k, _, _),
       match p !! k with
       | Some _ => p
       | None => <[k := ANone]> p
       end)
    spec p.

(** Modelled from the spec: the validation the framework class performs
    (its code is not in [src/]) when [main] constructs
    [AnsibleAWSModule(argument_spec=..., required_if=..., mutually_exclusive=...)]
    (lines 194-206): the validated [module.params], or the validation
    failure, "before any network call". *)
Definition AnsibleAWSModule (task_args : gmap string arg)
  : validation_error + gmap string arg :=
  let p := handle_aliases argument_spec task_args in
  match check_mutually_exclusive mutually_exclusive p with
  | (_ :: _) as bad => inl (MutuallyExclusive bad)
  | [] =>
      let p := check_argument_types argument_spec p in
      match check_required_if required_if p with
      | (_ :: _) as bad => inl (RequiredIf bad)
      | [] => inr (set_defaults argument_spec p)
      end
  end.

(** [module.params[k]]. *)
Definition param (params : gmap string arg) (k : string) : arg :=
  default ANone (params !! k).

(** ** The Athena client *)

(** One request: the operation and its keyword arguments. *)
Record request : Type := Request {
  operation : string;
  kwargs : list (string * arg)
}.

(** What the client of one invocation does.  [pages r] is the outcome of
    each successive page request a page iterator for [r] issues while it
    is iterated, in order: a page, or the error the request raises. *)
Record athena_client : Type := AthenaClient {
  can_paginate : string → bool;
  pages : request → list (aws_error + value);
  call : request → aws_error + value;
  retryable : string → bool
}.

(** The network requests of one invocation, in the order they are made. *)
Inductive event : Type :=
  | ApiCall (r : request)
  | PageFetch (r : request) (index : nat).

(** What [_athena] returns: a lazy page iterator (no request is made by
    building it) or the response of a direct call. *)
Inductive pyobj : Type :=
  | PageIterator (r : request)
  | Response (v : value).

(** The ways the module process ends through the framework. *)
Inductive sys_exit : Type :=
  | exit_json (key : string) (records : list value)
  | fail_json (err : validation_error)
  | fail_json_aws (e : aws_error) (msg : string).

(** ** Computations: request log, exceptions, process exit *)

Inductive result (A : Type) : Type :=
  | Val (a : A)
  | Raise (e : exn)
  | Exit (x : sys_exit).

Arguments Val {A} a.

Arguments Raise {A} e.

Arguments Exit {A} x.

Definition M (A : Type) : Type := list event → result A * list event.

#[global] Instance M_ret : MRet M := λ A a t, (Val a, t).

#[global] Instance M_bind : MBind M := λ A B k m t,
  match m t with
  | (Val a, t') => k a t'
  | (Raise e, t') => (Raise e, t')
  | (Exit x, t') => (Exit x, t')
  end.

Definition raise {A} (e : exn) : M A := λ t, (Raise e, t).

Definition halt {A} (x : sys_exit) : M A := λ t, (Exit x, t).

Definition log (e : event) : M unit := λ t, (Val tt, (t ++ [e])%list).

Definition lift {A} (r : exn + A) : M A :=
  match r with
  | inl e => raise e
  | inr a => mret a
  end.

(** [try: body except (BotoCoreError, ClientError) as e: handler(e)]. *)
Definition try_except_aws {A} (body : M A) (handler : aws_error → M A) : M A :=
  λ t, match body t with
       | (Raise (AwsError e), t') => handler e t'
       | r => r
       end.

(** Modelled from the spec: the loop of the retry decorator (imported at
    line 152, not in [src/]): the function is run again while it raises a
    [ClientError] whose code is in the retry list and attempts are left. *)
Fixpoint retry_loop {A} (is_retryable : string → bool)
    (more : nat) (f : M A) : M A :=
  match more with
  | 0 => f
  | S n =>
      λ t, match f t with
           | (Raise (AwsError (ClientError d)), t') =>
               if is_retryable d
               then retry_loop is_retryable n f t'
               else (Raise (AwsError (ClientError d)), t')
           | r => r
           end
  end.

(** Modelled from the spec: [AWSRetry.exponential_backoff(retries, delay)]
    (imported at line 152, not in [src/]), "a bounded retry loop (max 5
    attempts, exponential delay from a 5-second base) around the single
    network operation" (section 9).  The delays are not modelled. *)
Definition exponential_backoff {A} (is_retryable : string → bool)
    (retries : nat) (f : M A) : M A :=
  retry_loop is_retryable (retries - 1) f.

(** ** Python operations on the objects involved *)

(** [v[k]] with a string key. *)
Definition subscript (v : value) (k : string) : exn + value :=
  match v with
  | VDict d =>
      match dict_get d k with
      | Some x => inr x
      | None => inl (KeyError k)
      end
  | _ => inl (TypeError "subscript")
  end.

Fixpoint chars (s : string) : list value :=
  match s with
  | EmptyString => []
  | String c s' => VStr (String c EmptyString) :: chars s'
  end.

(** The items [for x in v] visits. *)
Definition iter_value (v : value) : exn + list value :=
  match v with
  | VList l => inr l
  | VDict d => inr (VStr <$> d.*1)
  | VStr s => inr (chars s)
  | _ => inl (TypeError "iter")
  end.

(** [for x in xs: body], threading the list being built. *)
Fixpoint for_each (xs : list value) (body : value → list value → M (list value))
    (acc : list value) : M (list value) :=
  match xs with
  | [] => mret acc
  | x :: xs' => acc' ← body x acc; for_each xs' body acc'
  end.

(** Iterating a page iterator: each step issues the next page request. *)
Fixpoint for_pages (r : request) (script : list (aws_error + value)) (index : nat)
    (body : value → list value → M (list value)) (acc : list value)
  : M (list value) :=
  match script with
  | [] => mret acc
  | fetched :: script' =>
      _ ← log (PageFetch r index);
      match fetched with
      | inl e => raise (AwsError e)
      | inr page =>
          acc' ← body page acc;
          for_pages r script' (S index) body acc'
      end
  end.

(** [for response in _it: body]. *)
Definition for_in (athena : athena_client) (it : pyobj)
    (body : value → list value → M (list value)) (acc : list value)
  : M (list value) :=
  match it with
  | PageIterator r => for_pages r (pages athena r) 0 body acc
  | Response v => xs ← lift (iter_value v); for_each xs body acc
  end.

(** [_it[k]]: a page iterator cannot be subscripted. *)
Definition subscript_obj (it : pyobj) (k : string) : exn + value :=
  match it with
  | PageIterator _ => inl (TypeError "subscript")
  | Response v => subscript v k
  end.

(** [athena.get_paginator(op).paginate(...)]: fails for an operation
    the client cannot paginate; makes no request. *)
Definition paginate (athena : athena_client) (op : string)
    (kw : list (string * arg)) : M pyobj :=
  if can_paginate athena op
  then mret (PageIterator (Request op kw))
  else raise (AwsError (BotoCoreError "OperationNotPageableError")).

(** A direct call of an operation. *)
Definition api_call (athena : athena_client) (r : request) : M value :=
  _ ← log (ApiCall r);
  match call athena r with
  | inl e => raise (AwsError e)
  | inr v => mret v
  end.

(** ** The module *)

(** The body of [_athena] (lines 157-182). *)
Definition _athena_body (athena : athena_client) (params : gmap string arg)
  : M pyobj :=
  try_except_aws
    (if truthy (param params "list_databases") then
       paginate athena "list_databases"
         [("CatalogName", param params "name")]
     else if truthy (param params "list_database_tables") then
       paginate athena "list_table_metadata"
         [("CatalogName", param params "name");
          ("DatabaseName", param params "database_name")]
     else if truthy (param params "list_work_groups") then
       if can_paginate athena "list_work_groups" then
         paginate athena "list_work_groups" []
       else
         v ← api_call athena (Request "list_work_groups" []);
         mret (Response v)
     else
       paginate athena "list_data_catalogs" [])
    (λ e, halt (fail_json_aws e "Failed to fetch aws athena details")).

(** [_athena] as decorated at line 155. *)
Definition _athena (athena : athena_client) (params : gmap string arg)
  : M pyobj :=
  exponential_backoff (retryable athena) 5 (_athena_body athena params).

(** [for x in response[key]: __default_return.append(camel_dict_to_snake_dict(x))]. *)
Definition append_normalized (container : value) (key : string)
    (acc : list value) : M (list value) :=
  items ← lift (subscript container key);
  xs ← lift (iter_value items);
  for_each xs (λ x acc, r ← lift (camel_dict_to_snake_dict x); mret (acc ++ [r])%list) acc.

(** [main] (lines 185-230).  [_athena] never returns [None] (a failure
    leaves through [fail_json_aws]), so the test at line 211 holds. *)
Definition main (athena : athena_client) (task_args : gmap string arg)
  : M unit :=
  match AnsibleAWSModule task_args with
  | inl err => halt (fail_json err)
  | inr params =>
      _it ← _athena athena params;
      if truthy (param params "list_databases") then
        recs ← for_in athena _it
                 (λ response acc, append_normalized response "DatabaseList" acc) [];
        halt (exit_json "databases" recs)
      else if truthy (param params "list_database_tables") then
        recs ← for_in athena _it
                 (λ response acc, append_normalized response "TableMetadataList" acc) [];
        halt (exit_json "tables" recs)
      else if truthy (param params "list_work_groups") then
        wgs ← lift (subscript_obj _it "WorkGroups");
        xs ← lift (iter_value wgs);
        recs ← for_each xs
                 (λ x acc, r ← lift (camel_dict_to_snake_dict x); mret (acc ++ [r])%list) [];
        halt (exit_json "work_groups" recs)
      else
        recs ← for_in athena _it
                 (λ response acc, append_normalized response "DataCatalogsSummary" acc) [];
        halt (exit_json "catalogs" recs)
  end.

(** One invocation: how the process ends and the requests it made. *)
Definition run (athena : athena_client) (task_args : gmap string arg)
  : result unit * list event :=
  main athena task_args [].

(** ** Notions the statements use *)

Definition sample_table : list (string * value) :=
  [ ("columns", VList [VDict [("name", VStr "request_timestamp");
                              ("type", VStr "string")]]);
    ("create_time", VStr "2020-12-19T23:39:38+02:00");
    ("name", VStr "elb_logs");
    ("parameters", VDict [("created_by", VStr "Athena"); ("external", VStr "TRUE")]);
    ("partition_keys", VList []);
    ("table_type", VStr "EXTERNAL_TABLE") ].

(** The type [argument_spec] declares for an option. *)
Fixpoint spec_type (spec : list (string * arg_type * list string)) (k : string)
  : option arg_type :=
  match spec with
  | [] => None
  | (k', ty, _) :: spec' => if decide (k' = k) then Some ty else spec_type spec' k
  end.

Definition mode_flags : list string :=
  ["list_databases"; "list_database_tables"; "list_work_groups"].

(** The flag was given a true value. *)
Definition flag_on (task_args : gmap string arg) (k : string) : bool :=
  truthy (param task_args k).

(** The option was supplied, under its own name or an alias. *)
Definition supplied (task_args : gmap string arg) (k : string) : bool :=
  bool_decide (is_Some (handle_aliases argument_spec task_args !! k)).

Definition two_modes : gmap string arg :=
  <["name" := AStr "AwsDataCatalog"]>
    (<["list_databases" := ABool true]> {["list_work_groups" := ABool true]}).

Definition no_client : athena_client :=
  AthenaClient (λ _, false) (λ _, []) (λ _, inl (ClientError "unreachable")) (λ _, false).

Definition work_groups_of_database : gmap string arg :=
  <["database_name" := AStr "sampledb"]> {["list_work_groups" := ABool true]}.

Definition tables_without_database : gmap string arg :=
  <["name" := AStr "AwsDataCatalog"]> {["list_database_tables" := ABool true]}.

(** The four modes of the module. *)
Inductive mode : Type := Databases | Tables | WorkGroups | Catalogs.

(** The branch [_athena] and [main] take, from the task arguments. *)
Definition mode_of (task_args : gmap string arg) : mode :=
  if flag_on task_args "list_databases" then Databases
  else if flag_on task_args "list_database_tables" then Tables
  else if flag_on task_args "list_work_groups" then WorkGroups
  else Catalogs.

Definition mode_request (m : mode) (params : gmap string arg) : request :=
  match m with
  | Databases => Request "list_databases" [("CatalogName", param params "name")]
  | Tables => Request "list_table_metadata"
                [("CatalogName", param params "name");
                 ("DatabaseName", param params "database_name")]
  | WorkGroups => Request "list_work_groups" []
  | Catalogs => Request "list_data_catalogs" []
  end.

(** The key of a response that holds the records. *)
Definition mode_key (m : mode) : string :=
  match m with
  | Databases => "DatabaseList"
  | Tables => "TableMetadataList"
  | WorkGroups => "WorkGroups"
  | Catalogs => "DataCatalogsSummary"
  end.

Definition output_key (m : mode) : string :=
  match m with
  | Databases => "databases"
  | Tables => "tables"
  | WorkGroups => "work_groups"
  | Catalogs => "catalogs"
  end.

(** The response holds the records [recs], each a dict, under [key]. *)
Definition page_has (key : string) (page : value)
    (recs : list (list (string * value))) : Prop :=
  subscript page key = inr (VList (VDict <$> recs)).

Definition normalized (recs : list (list (string * value))) : list value :=
  (λ d, snake_value (VDict d)) <$> recs.

(** Page requests number [i], [i+1], ... ([n] of them) of one iterator. *)
Definition fetches (r : request) (i n : nat) : list event :=
  PageFetch r <$> seq i n.

(** Arguments that agree everywhere but at [f], an option that is neither
    [name] nor its alias. *)
Definition agree_off (f : string) (p q : gmap string arg) : Prop :=
  ∀ k, k ≠ f → p !! k = q !! k.

Definition unset_example : gmap string arg :=
  <["name" := AStr "AwsDataCatalog"]> {["list_database_tables" := ABool false]}.

Definition sample_catalog : list (string * value) :=
  [("CatalogName", VStr "AwsDataCatalog"); ("Type", VStr "GLUE")].

Definition catalog_page : value :=
  VDict [("DataCatalogsSummary", VList [VDict sample_catalog])].

(** A client whose catalog listing has the one page of the scenario. *)
Definition scenario_client : athena_client :=
  AthenaClient (λ _, true)
    (λ r, if String.eqb (operation r) "list_data_catalogs"
          then [inr catalog_page] else [])
    (λ _, inl (ClientError "unused"))
    (λ _, false).

Definition databases_args : gmap string arg :=
  <["name" := AStr "AwsDataCatalog"]> {["list_databases" := ABool true]}.

Definition sample_work_group : list (string * value) :=
  [("Name", VStr "primary");
   ("State", VStr "ENABLED");
   ("Description", VStr "");
   ("CreationTime", VStr "2020-12-19T23:39:31.222000+02:00")].

Definition work_groups_page : value :=
  VDict [("WorkGroups", VList [VDict sample_work_group])].

(** A client that paginates every operation, [list_work_groups] too. *)
Definition paginating_client : athena_client :=
  AthenaClient (λ _, true)
    (λ _, [inr work_groups_page])
    (λ _, inr work_groups_page)
    (λ _, false).

(** A client that paginates all operations but [list_work_groups]. *)
Definition single_call_client : athena_client :=
  AthenaClient (λ op, negb (String.eqb op "list_work_groups"))
    (λ _, [])
    (λ _, inr work_groups_page)
    (λ _, false).

Definition work_groups_args : gmap string arg :=
  {["list_work_groups" := ABool true]}.

(** A client whose every request is refused. *)
Definition denied_client : athena_client :=
  AthenaClient (λ op, negb (String.eqb op "list_work_groups"))
    (λ _, [inl (ClientError "AccessDeniedException")])
    (λ _, inl (ClientError "AccessDeniedException"))
    (λ _, false).

(** A client that serves one page of catalogs and fails on the second
    request with an error of the retry list. *)
Definition throttled_client : athena_client :=
  AthenaClient (λ _, true)
    (λ _, [inr catalog_page; inl (ClientError "ThrottlingException");
           inr catalog_page])
    (λ _, inl (ClientError "ThrottlingException"))
    (λ _, true).

(** A client that paginates nothing. *)
Definition unpageable_client : athena_client :=
  AthenaClient (λ _, false) (λ _, [inr catalog_page])
    (λ _, inr catalog_page) (λ _, false).

Definition false_flag_with_name : gmap string arg :=
  <["name" := AStr "AwsDataCatalog"]> {["list_work_groups" := ABool false]}.

Definition name_only : gmap string arg := {["name" := AStr "AwsDataCatalog"]}.

(** ** The page loop as a function of the responses *)

(** [camel_dict_to_snake_dict(x)] for each [x] of [xs] in turn, up to the
    first one that raises. *)
Fixpoint normalize_all (xs : list value) : exn + list value :=
  match xs with
  | [] => inr []
  | x :: xs' =>
      match camel_dict_to_snake_dict x with
      | inl e => inl e
      | inr r =>
          match normalize_all xs' with
          | inl e => inl e
          | inr rs => inr (r :: rs)
          end
      end
  end.

(** What the inner loop of [main] appends for one response (lines 214-215,
    219-220, 223-224, 228-229): the normalized items of [response[key]],
    or the exception the loop dies on. *)
Definition page_records (key : string) (response : value) : exn + list value :=
  match subscript response key with
  | inl e => inl e
  | inr items =>
      match iter_value items with
      | inl e => inl e
      | inr xs => normalize_all xs
      end
  end.

(** The outer loop of [main] over the page requests of an iterator: the
    records gathered or the exception raised, and how many requests were
    issued. *)
Fixpoint walk (key : string) (script : list (aws_error + value))
    (acc : list value) : (exn + list value) * nat :=
  match script with
  | [] => (inr acc, 0)
  | inl e :: _ => (inl (AwsError e), 1)
  | inr page :: script' =>
      match page_records key page with
      | inl e => (inl e, 1)
      | inr rs =>
          let '(r, n) := walk key script' (acc ++ rs)%list in (r, S n)
      end
  end.

(** The one request [_athena] can issue itself. *)
Definition work_groups_call : request := Request "list_work_groups" [].

(** A client whose second page of catalogs lacks the list of records. *)
Definition truncated_client : athena_client :=
  AthenaClient (λ _, true)
    (λ _, [inr catalog_page; inr (VDict [("NextToken", VStr "t")]);
           inr catalog_page])
    (λ _, inr (VDict []))
    (λ _, false).

(** A client whose [list_work_groups] response has no [WorkGroups]. *)
Definition keyless_client : athena_client :=
  AthenaClient (λ op, negb (String.eqb op "list_work_groups"))
    (λ _, [])
    (λ _, inr (VDict [("ResponseMetadata", VDict [])]))
    (λ _, false).

Definition database_page : value :=
  VDict [("DatabaseList",
          VList [VDict [("Name", VStr "sampledb");
                        ("Description", VStr "Sample database")]])].

Definition table_page : value :=
  VDict [("TableMetadataList", VList [VDict sample_table])].

(** A client that serves one page of databases and one of tables. *)
Definition catalog_contents_client : athena_client :=
  AthenaClient (λ _, true)
    (λ r, if String.eqb (operation r) "list_databases" then [inr database_page]
          else if String.eqb (operation r) "list_table_metadata"
               then [inr table_page] else [])
    (λ _, inl (ClientError "unused"))
    (λ _, false).

Definition tables_args : gmap string arg :=
  <["database_name" := AStr "sampledb"]>
    (<["name" := AStr "AwsDataCatalog"]> {["list_database_tables" := ABool true]}).

(** * Properties *)

(** ** The key renamer on sample keys *)

Example camel_CatalogName : _camel_to_snake "CatalogName" = "catalog_name".
Proof. reflexivity. Qed.

Example camel_ARNs : _camel_to_snake "TargetGroupARNs" = "target_group_arns".
Proof. reflexivity. Qed.

Example camel_HTTP : _camel_to_snake "HTTPEndpoint" = "http_endpoint".
Proof. reflexivity. Qed.

Example camel_mixed : _camel_to_snake "getHTTPResponseCode" = "get_http_response_code".
Proof. reflexivity. Qed.

Example camel_only_plural : _camel_to_snake "ARNs" = "arns".
Proof. reflexivity. Qed.

(** ** The key renamer on keys that are already snake_case *)

Lemma snake_char_not_upper c : snake_char c = true → is_upper c = false.
Proof.
  destruct c as [[] [] [] [] [] [] [] []]; vm_compute; congruence.
Qed.

Lemma is_snake_key_cons c s :
  is_snake_key (String c s) = true → is_upper c = false ∧ is_snake_key s = true.
Proof.
  simpl. intros [Hc Hs]%andb_true_iff. split; [by apply snake_char_not_upper | done].
Qed.

Lemma lower_snake s : is_snake_key s = true → lower s = s.
Proof.
  induction s as [|c s IH]; [done|].
  intros [Hc Hs]%is_snake_key_cons. simpl.
  unfold to_lower. rewrite Hc. by rewrite IH.
Qed.

Lemma plural_at_snake s : is_snake_key s = true → plural_at s = None.
Proof.
  destruct s as [|c s]; [done|].
  intros [Hc _]%is_snake_key_cons.
  unfold plural_at. simpl. by rewrite Hc.
Qed.

Lemma sub_plural_snake s : is_snake_key s = true → sub_plural s = s.
Proof.
  induction s as [|c s IH]; [done|].
  intros Hs. pose proof (plural_at_snake _ Hs) as Hp.
  apply is_snake_key_cons in Hs as [_ Hs].
  change (sub_plural (String c s))
    with (match plural_at (String c s) with
          | Some (m, rest) => String "_" (lower m ++ rest)
          | None => String c (sub_plural s)
          end).
  rewrite Hp. by rewrite IH.
Qed.

Lemma sub_first_cap_cons b c r1 :
  sub_first_cap b (String c r1) =
  if b && is_lower c then String c (sub_first_cap true r1)
  else match r1 with
       | String u (String l t) =>
           if negb (Ascii.eqb c LF) && is_upper u && is_lower l
           then String c (String "_" (String u (String l (sub_first_cap true t))))
           else String c (sub_first_cap false r1)
       | _ => String c (sub_first_cap false r1)
       end.
Proof. done. Qed.

Lemma sub_all_cap_cons b c r1 :
  sub_all_cap b (String c r1) =
  if b && is_upper c then String c (sub_all_cap true r1)
  else match r1 with
       | String u t =>
           if (is_lower c || is_digit c) && is_upper u
           then String c (String "_" (String u (sub_all_cap true t)))
           else String c (sub_all_cap false r1)
       | EmptyString => String c EmptyString
       end.
Proof. done. Qed.

Lemma sub_first_cap_snake s b : is_snake_key s = true → sub_first_cap b s = s.
Proof.
  revert b. induction s as [|c s IH]; [done|].
  intros b Hs. apply is_snake_key_cons in Hs as [_ Hs].
  rewrite sub_first_cap_cons.
  destruct (b && is_lower c); [by rewrite IH|].
  destruct s as [|u [|l t]]; [done | by rewrite IH |].
  pose proof Hs as [Hu _]%is_snake_key_cons.
  rewrite Hu, andb_false_r. cbn [andb]. by rewrite IH.
Qed.

Lemma sub_all_cap_snake s b : is_snake_key s = true → sub_all_cap b s = s.
Proof.
  revert b. induction s as [|c s IH]; [done|].
  intros b Hs. pose proof Hs as [Hc Hs']%is_snake_key_cons.
  rewrite sub_all_cap_cons, Hc, andb_false_r.
  destruct s as [|u t]; [done|].
  pose proof Hs' as [Hu _]%is_snake_key_cons.
  rewrite Hu, andb_false_r. by rewrite IH.
Qed.

Lemma camel_to_snake_snake s : is_snake_key s = true → _camel_to_snake s = s.
Proof.
  intros Hs. unfold _camel_to_snake.
  rewrite sub_plural_snake by done.
  assert (startswith "_" s && negb (startswith "_" s) = false) as ->
    by by destruct (startswith "_" s).
  rewrite sub_first_cap_snake, sub_all_cap_snake by done.
  by apply lower_snake.
Qed.

(** ** Dicts *)

Lemma dict_set_fresh d k v : k ∉ d.*1 → dict_set d k v = (d ++ [(k, v)])%list.
Proof.
  induction d as [|[k' v'] d IH]; [done|].
  intros Hk. simpl in *. apply not_elem_of_cons in Hk as [Hne Hk].
  destruct (String.eqb_spec k' k) as [->|_]; [done|]. by rewrite IH.
Qed.

(** Rebuilding a dict whose entries the renaming leaves alone appends
    them, in order, to what was built so far. *)
Lemma rebuild_fixed (d acc : list (string * value)) :
  NoDup (acc.*1 ++ d.*1) →
  Forall (λ kv, _camel_to_snake kv.1 = kv.1 ∧ snake_value kv.2 = kv.2) d →
  fold_left (λ acc kv, dict_set acc (_camel_to_snake kv.1) (snake_value kv.2)) d acc
  = (acc ++ d)%list.
Proof.
  revert acc. induction d as [|[k v] d IH]; intros acc Hnd Hfix.
  - by rewrite app_nil_r.
  - apply Forall_cons in Hfix as [[Hk Hv] Hfix]. simpl in *.
    rewrite Hk, Hv.
    assert (k ∉ acc.*1) as Hfresh.
    { apply NoDup_app in Hnd as (_ & Hdisj & _).
      intros Hin. apply (Hdisj _ Hin). by left. }
    rewrite dict_set_fresh by done.
    rewrite IH; [by rewrite <- app_assoc | | done].
    rewrite fmap_app, <- app_assoc. done.
Qed.

Lemma snake_value_fixed v :
  dict_wf v = true → snake_keys v = true → snake_value v = v.
Proof.
  induction v as [| | | |l IH|d IH] using value_nested_ind; try done.
  - intros Hwf Hsk. simpl in *. f_equal.
    apply Is_true_true_2, forallb_True in Hwf, Hsk.
    induction l as [|x l IHl]; [done|].
    apply Forall_cons in IH as [IHx IH], Hwf as [Hx Hwf], Hsk as [Hsx Hsk].
    simpl. rewrite IHx, IHl; try done; by apply Is_true_true.
  - intros Hwf Hsk. simpl in *. f_equal.
    apply andb_true_iff in Hwf as [Hnd%bool_decide_eq_true Hwf].
    rewrite rebuild_fixed; [done | done |].
    apply Is_true_true_2, forallb_True in Hwf, Hsk.
    clear Hnd. induction d as [|[k x] d IHd]; [done|].
    apply Forall_cons in IH as [IHx IH], Hwf as [Hx Hwf], Hsk as [Hsx Hsk].
    simpl in *. apply andb_True in Hsx as [Hk Hsx].
    apply Forall_cons. split; [|by apply IHd].
    split; [apply camel_to_snake_snake | apply IHx]; try done; by apply Is_true_true.
Qed.

(** C6: the key-renaming normalizer returns a record unchanged when all
    its keys, through nested dicts and lists, are already snake_case (the
    record being a Python dict, its keys are pairwise distinct at every
    level). *)
Theorem normalizer_idempotent (record : list (string * value)) :
  dict_wf (VDict record) = true →
  snake_keys (VDict record) = true →
  camel_dict_to_snake_dict (VDict record) = inr (VDict record).
Proof.
  intros Hwf Hsk. unfold camel_dict_to_snake_dict.
  f_equal. by apply snake_value_fixed.
Qed.

Lemma normalizer_idempotent_witness :
  camel_dict_to_snake_dict (VDict sample_table) = inr (VDict sample_table).
Proof.
  apply (normalizer_idempotent sample_table); vm_compute; reflexivity.
Defined.

(** ** Validation: what each step does to a lookup *)

Lemma handle_aliases_lookup (p : gmap string arg) k :
  handle_aliases argument_spec p !! k =
  if decide (k = "name")
  then match p !! "catalog_name" with Some v => Some v | None => p !! "name" end
  else p !! k.
Proof.
  unfold handle_aliases, argument_spec. simpl.
  destruct (p !! "catalog_name") as [v|] eqn:Hc; case_decide; by simplify_map_eq.
Qed.

Lemma param_set_defaults spec (p : gmap string arg) k :
  param (set_defaults spec p) k = param p k.
Proof.
  unfold set_defaults. revert p.
  induction spec as [|[[k' ty] al] spec IH]; intros p; [done|].
  simpl. rewrite IH. destruct (p !! k') eqn:Hk'; [done|].
  unfold param. destruct (decide (k' = k)) as [->|Hne].
  - by rewrite lookup_insert_eq, Hk'.
  - by rewrite lookup_insert_ne.
Qed.

Lemma spec_type_None spec k : k ∉ spec.*1.*1 → spec_type spec k = None.
Proof.
  induction spec as [|[[k' ty] al] spec IH]; [done|].
  simpl. intros [Hne Hk]%not_elem_of_cons.
  rewrite decide_False by done. by apply IH.
Qed.

Lemma check_argument_types_step (p : gmap string arg) k' ty k :
  match p !! k' with
  | Some v => <[k' := coerce ty v]> p
  | None => p
  end !! k
  = if decide (k' = k) then coerce ty <$> p !! k else p !! k.
Proof.
  case_decide as Hk; [subst k'|].
  - destruct (p !! k) eqn:E; [by rewrite lookup_insert_eq | by rewrite E].
  - destruct (p !! k') eqn:E; [by rewrite lookup_insert_ne | done].
Qed.

Lemma check_argument_types_spec spec (p : gmap string arg) k :
  NoDup spec.*1.*1 →
  check_argument_types spec p !! k =
  match spec_type spec k with
  | Some ty => coerce ty <$> p !! k
  | None => p !! k
  end.
Proof.
  unfold check_argument_types. revert p.
  induction spec as [|[[k' ty] al] spec IH]; intros p Hnd; [done|].
  apply NoDup_cons in Hnd as [Hfresh Hnd]. simpl in *.
  rewrite IH by done. rewrite check_argument_types_step.
  case_decide as Hk; [subst k'|done].
  by rewrite spec_type_None.
Qed.

Lemma argument_spec_NoDup : NoDup argument_spec.*1.*1.
Proof. apply (bool_decide_unpack _). by vm_compute. Qed.

Lemma check_argument_types_lookup (p : gmap string arg) k :
  check_argument_types argument_spec p !! k =
  match spec_type argument_spec k with
  | Some ty => coerce ty <$> p !! k
  | None => p !! k
  end.
Proof. apply check_argument_types_spec, argument_spec_NoDup. Qed.

(** ** Validation failures *)

Lemma run_invalid athena p err :
  AnsibleAWSModule p = inl err → run athena p = (Exit (fail_json err), []).
Proof. intros H. unfold run, main. by rewrite H. Qed.

Lemma count_terms_cons k ks (p : gmap string arg) :
  count_terms (k :: ks) p =
  (match p !! k with Some _ => 1 | None => 0 end + count_terms ks p)%nat.
Proof.
  unfold count_terms. rewrite filter_cons.
  destruct (p !! k) eqn:E; case_decide as H; simpl; try done.
  destruct H; eauto.
Qed.

Lemma count_terms_nil (p : gmap string arg) : count_terms [] p = 0.
Proof. done. Qed.

Lemma mutually_exclusive_fails p check :
  check ∈ mutually_exclusive →
  1 < count_terms check (handle_aliases argument_spec p) →
  ∃ bad, AnsibleAWSModule p = inl (MutuallyExclusive bad) ∧ check ∈ bad.
Proof.
  intros Hin Hcount.
  assert (check ∈ check_mutually_exclusive mutually_exclusive
                    (handle_aliases argument_spec p)) as Hbad
    by by apply list_elem_of_filter.
  unfold AnsibleAWSModule.
  destruct (check_mutually_exclusive _ _) as [|c bad] eqn:E.
  - by apply elem_of_nil in Hbad.
  - eauto.
Qed.

Lemma flag_on_lookup p k :
  flag_on p k = true → ∃ v, p !! k = Some v ∧ truthy v = true.
Proof.
  unfold flag_on, param. destruct (p !! k) as [v|]; [eauto | done].
Qed.

Lemma supplied_lookup p k :
  supplied p k = true ↔ is_Some (handle_aliases argument_spec p !! k).
Proof. unfold supplied. by rewrite bool_decide_eq_true. Qed.

(** C3: when more than one of the three mode flags is true, validation
    fails on their mutual exclusion and the invocation ends without
    having made any request. *)
Theorem several_modes_rejected athena (task_args : gmap string arg) :
  1 < length (filter (λ k, flag_on task_args k) mode_flags) →
  ∃ bad, run athena task_args = (Exit (fail_json (MutuallyExclusive bad)), [])
         ∧ mode_flags ∈ bad.
Proof.
  intros Hmany.
  destruct (mutually_exclusive_fails task_args mode_flags) as (bad & Hbad & Hin).
  { by left. }
  { unfold mode_flags in *. rewrite !count_terms_cons, count_terms_nil.
    rewrite !handle_aliases_lookup. simpl.
    rewrite !filter_cons, filter_nil in Hmany. unfold flag_on, param in Hmany.
    destruct (task_args !! "list_databases") as [[]|],
      (task_args !! "list_database_tables") as [[]|],
      (task_args !! "list_work_groups") as [[]|];
      simpl in *; repeat case_decide; simpl in *; lia. }
  exists bad. split; [by apply run_invalid | done].
Qed.

Lemma several_modes_rejected_witness :
  ∃ bad, run no_client two_modes = (Exit (fail_json (MutuallyExclusive bad)), [])
         ∧ mode_flags ∈ bad.
Proof.
  apply (several_modes_rejected no_client two_modes). vm_compute. lia.
Defined.

(** C7: with [list_work_groups] true, supplying [name] or [database_name]
    makes validation fail on a mutual exclusion, before any request. *)
Theorem work_groups_excludes_names athena (task_args : gmap string arg) :
  flag_on task_args "list_work_groups" = true →
  supplied task_args "name" || supplied task_args "database_name" = true →
  ∃ bad, run athena task_args = (Exit (fail_json (MutuallyExclusive bad)), [])
         ∧ (["name"; "list_work_groups"] ∈ bad
            ∨ ["database_name"; "list_work_groups"] ∈ bad).
Proof.
  intros (v & Hv & _)%flag_on_lookup Hsup.
  assert (handle_aliases argument_spec task_args !! "list_work_groups" = Some v)
    as Hwg by by rewrite handle_aliases_lookup.
  apply orb_true_iff in Hsup as [[x Hx]%supplied_lookup | [x Hx]%supplied_lookup].
  - destruct (mutually_exclusive_fails task_args ["name"; "list_work_groups"])
      as (bad & Hbad & Hin).
    { right; by left. }
    { rewrite !count_terms_cons, count_terms_nil, Hx, Hwg. lia. }
    exists bad. split; [by apply run_invalid | by left].
  - destruct (mutually_exclusive_fails task_args ["database_name"; "list_work_groups"])
      as (bad & Hbad & Hin).
    { right; right; by left. }
    { rewrite !count_terms_cons, count_terms_nil, Hx, Hwg. lia. }
    exists bad. split; [by apply run_invalid | by right].
Qed.

Lemma work_groups_excludes_names_witness :
  ∃ bad, run no_client work_groups_of_database
         = (Exit (fail_json (MutuallyExclusive bad)), [])
         ∧ (["name"; "list_work_groups"] ∈ bad
            ∨ ["database_name"; "list_work_groups"] ∈ bad).
Proof.
  apply (work_groups_excludes_names no_client work_groups_of_database);
    vm_compute; reflexivity.
Defined.

Lemma coerce_bool_on v : truthy v = true → coerce type_bool v = ABool true.
Proof. destruct v as [|[]|s]; simpl; try done. by intros ->. Qed.

Lemma required_if_fails p key v requirements r :
  (key, ABool true, requirements) ∈ required_if →
  handle_aliases argument_spec p !! key = Some v →
  truthy v = true →
  spec_type argument_spec key = Some type_bool →
  r ∈ requirements →
  handle_aliases argument_spec p !! r = None →
  ∃ err, AnsibleAWSModule p = inl err.
Proof.
  intros Hin Hkey Hv Hty Hr Hnone. unfold AnsibleAWSModule.
  destruct (check_mutually_exclusive _ _); [|eauto].
  set (p2 := check_argument_types _ _).
  assert (p2 !! key = Some (ABool true)) as Hkey2.
  { unfold p2. rewrite check_argument_types_lookup, Hty, Hkey.
    change (Some (coerce type_bool v) = Some (ABool true)).
    by rewrite coerce_bool_on. }
  assert (p2 !! r = None) as Hr2.
  { unfold p2. rewrite check_argument_types_lookup, Hnone. by destruct (spec_type argument_spec r). }
  assert ((key, filter (λ r, count_terms [r] p2 = 0) requirements)
            ∈ check_required_if required_if p2) as Hbad.
  { unfold check_required_if. apply list_elem_of_omap.
    exists (key, ABool true, requirements). split; [done|].
    rewrite bool_decide_eq_true_2 by done.
    assert (r ∈ filter (λ r, count_terms [r] p2 = 0) requirements) as Hm.
    { apply list_elem_of_filter. split; [|done].
      by rewrite count_terms_cons, Hr2. }
    destruct (filter _ requirements); [by apply elem_of_nil in Hm | done]. }
  destruct (check_required_if _ _); [by apply elem_of_nil in Hbad | eauto].
Qed.

(** C4: with [list_database_tables] true, validation fails before any
    request unless both [name] and [database_name] were supplied. *)
Theorem tables_mode_requires_both_names athena (task_args : gmap string arg) :
  flag_on task_args "list_database_tables" = true →
  supplied task_args "name" && supplied task_args "database_name" = false →
  ∃ err, run athena task_args = (Exit (fail_json err), []).
Proof.
  intros (v & Hv & Hon)%flag_on_lookup Hmiss.
  assert (∃ r, r ∈ ["name"; "database_name"]
               ∧ handle_aliases argument_spec task_args !! r = None)
    as (r & Hr & Hnone).
  { apply andb_false_iff in Hmiss as [Hmiss|Hmiss];
      apply bool_decide_eq_false in Hmiss;
      rewrite <- eq_None_not_Some in Hmiss.
    - exists "name". split; [by left | done].
    - exists "database_name". split; [right; by left | done]. }
  destruct (required_if_fails task_args "list_database_tables" v
              ["name"; "database_name"] r) as [err Herr]; try done.
  - right; by left.
  - by rewrite handle_aliases_lookup.
  - exists err. by apply run_invalid.
Qed.

Lemma tables_mode_requires_both_names_witness :
  ∃ err, run no_client tables_without_database = (Exit (fail_json err), []).
Proof.
  apply (tables_mode_requires_both_names no_client tables_without_database);
    vm_compute; reflexivity.
Defined.

(** ** What validation hands to the module *)

Lemma validated_lookup p params k :
  AnsibleAWSModule p = inr params →
  param params k =
  param (check_argument_types argument_spec (handle_aliases argument_spec p)) k.
Proof.
  unfold AnsibleAWSModule. cbv zeta.
  destruct (check_mutually_exclusive _ _); [|done].
  destruct (check_required_if _ _); [|done].
  intros Hok. apply (inj inr) in Hok. subst params. apply param_set_defaults.
Qed.

Lemma truthy_coerce_bool v : truthy (coerce type_bool v) = truthy v.
Proof. by destruct v. Qed.

Lemma spec_type_flags k :
  k ∈ mode_flags → spec_type argument_spec k = Some type_bool.
Proof.
  unfold mode_flags. rewrite !elem_of_cons, elem_of_nil.
  intros [->|[->|[->|[]]]]; by vm_compute.
Qed.

Lemma mode_flag_not_name k : k ∈ mode_flags → k ≠ "name".
Proof.
  unfold mode_flags. rewrite !elem_of_cons, elem_of_nil.
  intros [->|[->|[->|[]]]]; done.
Qed.

Lemma validated_flag p params k :
  AnsibleAWSModule p = inr params →
  k ∈ mode_flags →
  truthy (param params k) = flag_on p k.
Proof.
  intros Hok Hk. rewrite (validated_lookup _ _ _ Hok). unfold flag_on, param.
  rewrite check_argument_types_lookup, handle_aliases_lookup.
  rewrite (spec_type_flags _ Hk), decide_False by by apply mode_flag_not_name.
  destruct (p !! k) as [v|]; [apply truthy_coerce_bool | done].
Qed.

Lemma validated_name p params :
  AnsibleAWSModule p = inr params →
  param params "name" =
  coerce type_str (param (handle_aliases argument_spec p) "name").
Proof.
  intros Hok. rewrite (validated_lookup _ _ _ Hok). unfold param.
  rewrite check_argument_types_lookup.
  assert (spec_type argument_spec "name" = Some type_str) as -> by by vm_compute.
  by destruct (handle_aliases argument_spec p !! "name").
Qed.

Lemma validated_database_name p params :
  AnsibleAWSModule p = inr params →
  param params "database_name" = coerce type_str (param p "database_name").
Proof.
  intros Hok. rewrite (validated_lookup _ _ _ Hok). unfold param.
  rewrite check_argument_types_lookup, handle_aliases_lookup.
  assert (spec_type argument_spec "database_name" = Some type_str) as ->
    by by vm_compute.
  rewrite decide_False by done.
  by destruct (p !! "database_name").
Qed.

(** A validated invocation has at most one option of each exclusive
    group. *)
Lemma validated_exclusive p params check :
  AnsibleAWSModule p = inr params →
  check ∈ mutually_exclusive →
  (count_terms check (handle_aliases argument_spec p) ≤ 1)%nat.
Proof.
  intros Hok Hin. apply not_lt. intros Hmany.
  destruct (mutually_exclusive_fails p check Hin Hmany) as (bad & Hbad & _).
  congruence.
Qed.

Lemma validated_work_groups_alone p params :
  AnsibleAWSModule p = inr params →
  flag_on p "list_work_groups" = true →
  flag_on p "list_databases" = false ∧ flag_on p "list_database_tables" = false.
Proof.
  intros Hok (v & Hv & _)%flag_on_lookup.
  assert (mode_flags ∈ mutually_exclusive) as Hin by by left.
  pose proof (validated_exclusive p params mode_flags Hok Hin) as Hone.
  unfold mode_flags in Hone.
  rewrite !count_terms_cons, count_terms_nil, !handle_aliases_lookup in Hone.
  rewrite !decide_False in Hone by done. rewrite Hv in Hone.
  unfold flag_on, param.
  destruct (p !! "list_databases"), (p !! "list_database_tables");
    simpl in *; first [done | lia].
Qed.

(** ** Evaluating the module *)

Lemma exponential_backoff_unused {A} is_retryable n (f : M A) t :
  (∀ e t', f t ≠ (Raise (AwsError e), t')) →
  exponential_backoff is_retryable n f t = f t.
Proof.
  intros Hno. unfold exponential_backoff.
  destruct (n - 1) as [|more]; [done|]. simpl.
  destruct (f t) as [[a|[[d|d]| | |]|x] t'] eqn:E; try done.
  by destruct (Hno (ClientError d) t').
Qed.

Lemma try_except_aws_halts {A} (body : M A) x t e t' :
  try_except_aws body (λ e, halt (x e)) t ≠ (Raise (AwsError e), t').
Proof.
  unfold try_except_aws.
  by destruct (body t) as [[a|[[d|d]| | |]|y] t''].
Qed.

(** No service error leaves [_athena]: the retry decorator never has
    anything to retry. *)
Lemma _athena_unguarded athena params t :
  _athena athena params t = _athena_body athena params t.
Proof.
  unfold _athena. apply exponential_backoff_unused.
  intros e t'. unfold _athena_body. apply try_except_aws_halts.
Qed.

Lemma _athena_iterator athena p params m t :
  AnsibleAWSModule p = inr params →
  mode_of p = m →
  can_paginate athena (operation (mode_request m params)) = true →
  _athena athena params t = (Val (PageIterator (mode_request m params)), t).
Proof.
  intros Hok Hm Hpag. rewrite _athena_unguarded.
  unfold _athena_body, try_except_aws, mode_of in *.
  rewrite !(validated_flag p params) by (done || set_solver).
  destruct (flag_on p "list_databases");
    [|destruct (flag_on p "list_database_tables");
      [|destruct (flag_on p "list_work_groups")]];
    subst m; simpl in Hpag; unfold paginate; by rewrite !Hpag.
Qed.

Lemma _athena_not_pageable athena p params m t :
  AnsibleAWSModule p = inr params →
  mode_of p = m →
  m ≠ WorkGroups →
  can_paginate athena (operation (mode_request m params)) = false →
  _athena athena params t =
  (Exit (fail_json_aws (BotoCoreError "OperationNotPageableError")
           "Failed to fetch aws athena details"), t).
Proof.
  intros Hok Hm Hwg Hpag. rewrite _athena_unguarded.
  unfold _athena_body, try_except_aws, mode_of in *.
  rewrite !(validated_flag p params) by (done || set_solver).
  destruct (flag_on p "list_databases");
    [|destruct (flag_on p "list_database_tables");
      [|destruct (flag_on p "list_work_groups")]];
    subst m; try done; simpl in Hpag; unfold paginate; by rewrite !Hpag.
Qed.

Lemma bind_val {A B} (m : M A) (k : A → M B) t a t' :
  m t = (Val a, t') → (m ≫= k) t = k a t'.
Proof. intros H. unfold mbind, M_bind. by rewrite H. Qed.

Lemma bind_raise {A B} (m : M A) (k : A → M B) t e t' :
  m t = (Raise e, t') → (m ≫= k) t = (Raise e, t').
Proof. intros H. unfold mbind, M_bind. by rewrite H. Qed.

Lemma bind_exit {A B} (m : M A) (k : A → M B) t x t' :
  m t = (Exit x, t') → (m ≫= k) t = (Exit x, t').
Proof. intros H. unfold mbind, M_bind. by rewrite H. Qed.

Lemma for_each_normalize recs acc t :
  for_each (VDict <$> recs)
    (λ x acc, r ← lift (camel_dict_to_snake_dict x); mret (acc ++ [r])%list) acc t
  = (Val (acc ++ normalized recs)%list, t).
Proof.
  revert acc. induction recs as [|d recs IH]; intros acc.
  - simpl. by rewrite app_nil_r.
  - rewrite fmap_cons. cbn [for_each].
    rewrite (bind_val _ _ t (acc ++ [snake_value (VDict d)])%list t) by done.
    rewrite IH. unfold normalized. by rewrite fmap_cons, <- app_assoc.
Qed.

Lemma append_normalized_page key page recs acc t :
  page_has key page recs →
  append_normalized page key acc t = (Val (acc ++ normalized recs)%list, t).
Proof.
  intros Hpage. unfold append_normalized, page_has in *.
  rewrite (bind_val _ _ t (VList (VDict <$> recs)) t) by by rewrite Hpage.
  rewrite (bind_val _ _ t (VDict <$> recs) t) by done.
  apply for_each_normalize.
Qed.

Lemma fetches_cons r i n : fetches r i (S n) = PageFetch r i :: fetches r (S i) n.
Proof. done. Qed.

Lemma for_pages_all_good r key good recss i acc t :
  Forall2 (page_has key) good recss →
  for_pages r (inr <$> good) i (λ page acc, append_normalized page key acc) acc t
  = (Val (acc ++ normalized (concat recss))%list,
     (t ++ fetches r i (length good))%list).
Proof.
  intros Hgood. revert i acc t.
  induction Hgood as [|page recs good recss Hpage _ IH]; intros i acc t.
  - simpl. by rewrite !app_nil_r.
  - rewrite fmap_cons. cbn [for_pages length concat].
    rewrite (bind_val _ _ t tt (t ++ [PageFetch r i])%list) by done.
    rewrite (bind_val _ _ _ _ _ (append_normalized_page _ _ _ _ _ Hpage)), IH.
    unfold normalized. rewrite fmap_app, fetches_cons.
    by rewrite <- !app_assoc.
Qed.

Lemma for_pages_error r key good recss e rest i acc t :
  Forall2 (page_has key) good recss →
  for_pages r ((inr <$> good) ++ inl e :: rest)%list i
    (λ page acc, append_normalized page key acc) acc t
  = (Raise (AwsError e), (t ++ fetches r i (S (length good)))%list).
Proof.
  intros Hgood. revert i acc t.
  induction Hgood as [|page recs good recss Hpage _ IH]; intros i acc t.
  - done.
  - rewrite fmap_cons. cbn [app for_pages length].
    rewrite (bind_val _ _ t tt (t ++ [PageFetch r i])%list) by done.
    rewrite (bind_val _ _ _ _ _ (append_normalized_page _ _ _ _ _ Hpage)), IH.
    rewrite (fetches_cons r i). by rewrite <- !app_assoc.
Qed.

(** In the three modes that iterate, an invocation that passed validation
    is the walk over the pages followed by [exit_json]. *)
Lemma run_iterating athena p params m :
  AnsibleAWSModule p = inr params →
  mode_of p = m →
  m ≠ WorkGroups →
  can_paginate athena (operation (mode_request m params)) = true →
  run athena p =
  (for_pages (mode_request m params) (pages athena (mode_request m params)) 0
     (λ page acc, append_normalized page (mode_key m) acc) []
   ≫= λ recs, halt (exit_json (output_key m) recs)) [].
Proof.
  intros Hok Hm Hwg Hpag. unfold run, main. rewrite Hok.
  rewrite (bind_val _ _ _ _ _ (_athena_iterator _ _ _ _ _ Hok Hm Hpag)).
  unfold mode_of in Hm.
  rewrite !(validated_flag p params) by (done || set_solver).
  destruct (flag_on p "list_databases");
    [|destruct (flag_on p "list_database_tables");
      [|destruct (flag_on p "list_work_groups")]];
    by subst m.
Qed.

Lemma run_pages_good athena p params m good recss :
  AnsibleAWSModule p = inr params →
  mode_of p = m →
  m ≠ WorkGroups →
  can_paginate athena (operation (mode_request m params)) = true →
  pages athena (mode_request m params) = inr <$> good →
  Forall2 (page_has (mode_key m)) good recss →
  run athena p =
  (Exit (exit_json (output_key m) (normalized (concat recss))),
   fetches (mode_request m params) 0 (length good)).
Proof.
  intros Hok Hm Hwg Hpag Hpages Hgood.
  rewrite (run_iterating _ _ _ _ Hok Hm Hwg Hpag), Hpages.
  by rewrite (bind_val _ _ _ _ _ (for_pages_all_good _ _ _ _ _ _ _ Hgood)).
Qed.

Lemma run_pages_error athena p params m good recss e rest :
  AnsibleAWSModule p = inr params →
  mode_of p = m →
  m ≠ WorkGroups →
  can_paginate athena (operation (mode_request m params)) = true →
  pages athena (mode_request m params) = ((inr <$> good) ++ inl e :: rest)%list →
  Forall2 (page_has (mode_key m)) good recss →
  run athena p =
  (Raise (AwsError e), fetches (mode_request m params) 0 (S (length good))).
Proof.
  intros Hok Hm Hwg Hpag Hpages Hgood.
  rewrite (run_iterating _ _ _ _ Hok Hm Hwg Hpag), Hpages.
  by rewrite (bind_raise _ _ _ _ _ (for_pages_error _ _ _ _ _ _ _ _ _ Hgood)).
Qed.

Lemma run_not_pageable athena p params m :
  AnsibleAWSModule p = inr params →
  mode_of p = m →
  m ≠ WorkGroups →
  can_paginate athena (operation (mode_request m params)) = false →
  run athena p =
  (Exit (fail_json_aws (BotoCoreError "OperationNotPageableError")
           "Failed to fetch aws athena details"), []).
Proof.
  intros Hok Hm Hwg Hpag. unfold run, main. rewrite Hok.
  by rewrite (bind_exit _ _ _ _ _ (_athena_not_pageable _ _ _ _ _ Hok Hm Hwg Hpag)).
Qed.

Lemma mode_of_work_groups p params :
  AnsibleAWSModule p = inr params →
  flag_on p "list_work_groups" = true →
  mode_of p = WorkGroups.
Proof.
  intros Hok Hwg.
  destruct (validated_work_groups_alone _ _ Hok Hwg) as [Hd Ht].
  unfold mode_of. by rewrite Hd, Ht, Hwg.
Qed.

(** With [list_work_groups] and a client that paginates the operation,
    [main] subscripts the page iterator. *)
Lemma run_work_groups_paginated athena p params :
  AnsibleAWSModule p = inr params →
  flag_on p "list_work_groups" = true →
  can_paginate athena "list_work_groups" = true →
  run athena p = (Raise (TypeError "subscript"), []).
Proof.
  intros Hok Hwg Hpag.
  pose proof (mode_of_work_groups _ _ Hok Hwg) as Hm.
  destruct (validated_work_groups_alone _ _ Hok Hwg) as [Hd Ht].
  unfold run, main. rewrite Hok.
  rewrite (bind_val _ _ _ _ _ (_athena_iterator _ _ _ _ _ Hok Hm Hpag)).
  rewrite !(validated_flag p params) by (done || set_solver).
  by rewrite Hd, Ht, Hwg.
Qed.

(** With [list_work_groups] and a client that does not paginate the
    operation, the records of the one response are returned. *)
Lemma run_work_groups_single athena p params response recs :
  AnsibleAWSModule p = inr params →
  flag_on p "list_work_groups" = true →
  can_paginate athena "list_work_groups" = false →
  call athena (Request "list_work_groups" []) = inr response →
  page_has "WorkGroups" response recs →
  run athena p =
  (Exit (exit_json "work_groups" (normalized recs)),
   [ApiCall (Request "list_work_groups" [])]).
Proof.
  intros Hok Hwg Hpag Hcall Hpage.
  destruct (validated_work_groups_alone _ _ Hok Hwg) as [Hd Ht].
  assert (∀ t, _athena athena params t
               = (Val (Response response),
                  (t ++ [ApiCall (Request "list_work_groups" [])])%list)) as Hit.
  { intros t. rewrite _athena_unguarded. unfold _athena_body, try_except_aws.
    rewrite !(validated_flag p params) by (done || set_solver).
    rewrite Hd, Ht, Hwg, Hpag. unfold api_call.
    rewrite (bind_val _ _ t response (t ++ [ApiCall (Request "list_work_groups" [])])%list);
      [done|].
    rewrite (bind_val _ _ t tt (t ++ [ApiCall (Request "list_work_groups" [])])%list)
      by done.
    by rewrite Hcall. }
  unfold run, main. rewrite Hok.
  rewrite (bind_val _ _ _ _ _ (Hit [])).
  rewrite !(validated_flag p params) by (done || set_solver).
  rewrite Hd, Ht, Hwg.
  unfold page_has in Hpage.
  rewrite (bind_val _ _ _ (VList (VDict <$> recs)) _)
    by (unfold subscript_obj; by rewrite Hpage).
  rewrite (bind_val _ _ _ (VDict <$> recs) _) by done.
  by rewrite (bind_val _ _ _ _ _ (for_each_normalize _ _ _)).
Qed.

(** ** Validation depends on the arguments only through their lookups *)

Lemma filter_ext_elem {A} (P Q : A → Prop)
    `{!∀ x, Decision (P x), !∀ x, Decision (Q x)} (l : list A) :
  (∀ x, x ∈ l → P x ↔ Q x) → filter P l = filter Q l.
Proof.
  induction l as [|a l IH]; intros Hiff; [done|].
  rewrite !filter_cons, IH by (intros x Hx; apply Hiff; by right).
  destruct (Hiff a) as [H1 H2]; [by left|].
  repeat case_decide; tauto.
Qed.

Lemma count_terms_ext terms (p q : gmap string arg) :
  (∀ k, k ∈ terms → is_Some (p !! k) ↔ is_Some (q !! k)) →
  count_terms terms p = count_terms terms q.
Proof. intros H. unfold count_terms. f_equal. by apply filter_ext_elem. Qed.

Lemma count_terms_single r (p : gmap string arg) :
  count_terms [r] p = 0 ↔ p !! r = None.
Proof.
  rewrite count_terms_cons, count_terms_nil.
  destruct (p !! r); split; (done || lia).
Qed.

Lemma check_mutually_exclusive_ext terms (p q : gmap string arg) :
  (∀ check, check ∈ terms →
            1 < count_terms check p ↔ 1 < count_terms check q) →
  check_mutually_exclusive terms p = check_mutually_exclusive terms q.
Proof. intros H. unfold check_mutually_exclusive. by apply filter_ext_elem. Qed.

Lemma check_required_if_ext reqs (p q : gmap string arg) :
  Forall (λ e, (p !! e.1.1 = Some e.1.2 ↔ q !! e.1.1 = Some e.1.2)
               ∧ (p !! e.1.1 = Some e.1.2 →
                  ∀ r, r ∈ e.2 → p !! r = None ↔ q !! r = None)) reqs →
  check_required_if reqs p = check_required_if reqs q.
Proof.
  unfold check_required_if.
  induction 1 as [|[[key val] rq] reqs [Hk Hr] _ IH]; [done|].
  csimpl in *. rewrite IH.
  destruct (decide (p !! key = Some val)) as [Hp|Hp].
  - rewrite !bool_decide_eq_true_2 by tauto.
    rewrite (filter_ext_elem (λ r, count_terms [r] p = 0)
               (λ r, count_terms [r] q = 0)); [done|].
    intros r Hin. rewrite !count_terms_single. by apply Hr.
  - by rewrite !bool_decide_eq_false_2 by tauto.
Qed.

Lemma validation_same_checks p q :
  check_mutually_exclusive mutually_exclusive (handle_aliases argument_spec p)
  = check_mutually_exclusive mutually_exclusive (handle_aliases argument_spec q) →
  check_required_if required_if
    (check_argument_types argument_spec (handle_aliases argument_spec p))
  = check_required_if required_if
      (check_argument_types argument_spec (handle_aliases argument_spec q)) →
  (∃ err, AnsibleAWSModule p = inl err ∧ AnsibleAWSModule q = inl err)
  ∨ (∃ params params', AnsibleAWSModule p = inr params
                       ∧ AnsibleAWSModule q = inr params').
Proof.
  intros Hme Hri. unfold AnsibleAWSModule. cbv zeta. rewrite Hme, Hri.
  clear Hme Hri.
  destruct (check_mutually_exclusive _ _);
    [|left; eexists; split; reflexivity].
  destruct (check_required_if _ _);
    [right; do 2 eexists; split; reflexivity
    |left; eexists; split; reflexivity].
Qed.

(** Invocations that pass validation and agree on the flags and on the
    names their mode reads end alike, with the same requests. *)
Lemma run_same_dispatch athena p q params params' :
  AnsibleAWSModule p = inr params →
  AnsibleAWSModule q = inr params' →
  (∀ k, k ∈ mode_flags → flag_on p k = flag_on q k) →
  param params "name" = param params' "name" →
  (flag_on p "list_database_tables" = true →
   param params "database_name" = param params' "database_name") →
  run athena p = run athena q.
Proof.
  intros Hp Hq Hflags Hname Hdb. unfold run, main. rewrite Hp, Hq.
  unfold mbind, M_bind. rewrite !_athena_unguarded.
  unfold _athena_body, try_except_aws.
  rewrite !(validated_flag p params), !(validated_flag q params')
    by (done || set_solver).
  rewrite <- !Hflags by set_solver. rewrite <- Hname.
  destruct (flag_on p "list_databases"); [done|].
  destruct (flag_on p "list_database_tables"); [by rewrite Hdb|].
  done.
Qed.

Lemma count_terms_mono terms (p q : gmap string arg) :
  (∀ k, k ∈ terms → is_Some (q !! k) → is_Some (p !! k)) →
  (count_terms terms q ≤ count_terms terms p)%nat.
Proof.
  induction terms as [|k terms IH]; intros Hsub; [done|].
  rewrite !count_terms_cons.
  assert (count_terms terms q ≤ count_terms terms p)%nat as Hle
    by (apply IH; intros k' Hk'; apply Hsub; by right).
  destruct (q !! k) eqn:Hq; [|destruct (p !! k); lia].
  destruct (Hsub k) as [x ->]; [by left | by rewrite Hq | lia].
Qed.

Lemma agree_off_aliases f p q k :
  agree_off f p q → f ≠ "name" → f ≠ "catalog_name" → k ≠ f →
  handle_aliases argument_spec p !! k = handle_aliases argument_spec q !! k.
Proof.
  intros Hagree Hn Hc Hk. rewrite !handle_aliases_lookup.
  rewrite (Hagree "catalog_name"), (Hagree "name"), (Hagree k) by done. done.
Qed.

Lemma agree_off_types f p q k :
  agree_off f p q → f ≠ "name" → f ≠ "catalog_name" → k ≠ f →
  check_argument_types argument_spec (handle_aliases argument_spec p) !! k
  = check_argument_types argument_spec (handle_aliases argument_spec q) !! k.
Proof.
  intros Hagree Hn Hc Hk. rewrite !check_argument_types_lookup.
  by rewrite (agree_off_aliases f p q k).
Qed.

Lemma agree_off_dispatch athena f p q params params' :
  agree_off f p q → f ≠ "name" → f ≠ "catalog_name" →
  AnsibleAWSModule p = inr params →
  AnsibleAWSModule q = inr params' →
  (f ∈ mode_flags → flag_on p f = flag_on q f) →
  (f = "database_name" → flag_on p "list_database_tables" = false) →
  run athena p = run athena q.
Proof.
  intros Hagree Hn Hc Hp Hq Hflag Hdb.
  apply (run_same_dispatch athena p q params params' Hp Hq).
  - intros k Hk. destruct (decide (k = f)) as [->|Hne]; [by apply Hflag|].
    unfold flag_on, param. by rewrite (Hagree k).
  - rewrite (validated_name _ _ Hp), (validated_name _ _ Hq). unfold param.
    by rewrite (agree_off_aliases f p q "name").
  - intros Hon.
    rewrite (validated_database_name _ _ Hp), (validated_database_name _ _ Hq).
    unfold param. rewrite (Hagree "database_name"); [done|].
    intros <-. rewrite Hdb in Hon; done.
Qed.

Lemma required_if_entries e :
  e ∈ required_if →
  e.1.2 = ABool true
  ∧ (e.1.1 = "list_databases" ∨ e.1.1 = "list_database_tables")
  ∧ ∀ r, r ∈ e.2 → r = "name" ∨ r = "database_name".
Proof.
  unfold required_if. rewrite !elem_of_cons, elem_of_nil.
  intros [->|[->|[]]]; simpl; (split; [done|]); (split; [tauto|]);
    intros r; rewrite !elem_of_cons, elem_of_nil; tauto.
Qed.

Lemma coerced_flag_true p k :
  k ∈ mode_flags →
  check_argument_types argument_spec (handle_aliases argument_spec p) !! k
  = Some (ABool true) →
  flag_on p k = true.
Proof.
  intros Hk. rewrite check_argument_types_lookup, handle_aliases_lookup.
  rewrite (spec_type_flags _ Hk), decide_False by by apply mode_flag_not_name.
  unfold flag_on, param. destruct (p !! k) as [[|b|s]|]; simpl; congruence.
Qed.

Lemma mode_flag_cases k :
  k ∈ mode_flags →
  k ≠ "name" ∧ k ≠ "catalog_name" ∧ k ≠ "database_name".
Proof.
  unfold mode_flags. rewrite !elem_of_cons, elem_of_nil.
  intros [->|[->|[->|[]]]]; done.
Qed.

(** C9: a mode flag set to false is dispatched like an unset one: when
    validation passes, the invocation ends as it does without the flag,
    with the same requests; and [list_databases=false] alone lists the
    catalogs. *)
Theorem false_flag_like_unset athena (task_args : gmap string arg) params f :
  AnsibleAWSModule task_args = inr params →
  f ∈ mode_flags →
  task_args !! f = Some (ABool false) →
  run athena task_args = run athena (delete f task_args)
  ∧ ∀ good recss,
      can_paginate athena "list_data_catalogs" = true →
      pages athena (Request "list_data_catalogs" []) = inr <$> good →
      Forall2 (page_has "DataCatalogsSummary") good recss →
      run athena {["list_databases" := ABool false]} =
      (Exit (exit_json "catalogs" (normalized (concat recss))),
       fetches (Request "list_data_catalogs" []) 0 (length good)).
Proof.
  intros Hok Hf Hfalse. split.
  - destruct (mode_flag_cases f Hf) as (Hn & Hc & Hd).
    set (q := delete f task_args).
    assert (agree_off f task_args q) as Hagree
      by (intros k Hk; unfold q; by rewrite lookup_delete_ne).
    assert (handle_aliases argument_spec q !! f = None) as Hqf.
    { rewrite handle_aliases_lookup, decide_False by done.
      unfold q. apply lookup_delete_eq. }
    destruct (validation_same_checks task_args q)
      as [(err & Herr & _)|(params1 & params2 & Hp & Hq)].
    + apply check_mutually_exclusive_ext. intros check Hin.
      pose proof (validated_exclusive _ _ _ Hok Hin) as Hone.
      assert (count_terms check (handle_aliases argument_spec q)
              ≤ count_terms check (handle_aliases argument_spec task_args))%nat.
      { apply count_terms_mono. intros k _ Hsome.
        destruct (decide (k = f)) as [->|Hne].
        - rewrite Hqf in Hsome. by destruct Hsome.
        - by rewrite (agree_off_aliases f task_args q k). }
      lia.
    + apply check_required_if_ext, Forall_forall. intros e He.
      destruct (required_if_entries e He) as (Hval & Hkey & Hreq).
      rewrite Hval. split.
      * destruct (decide (e.1.1 = f)) as [->|Hne].
        -- rewrite !check_argument_types_lookup, Hqf.
           rewrite handle_aliases_lookup, decide_False, Hfalse by done.
           rewrite (spec_type_flags _ Hf). done.
        -- by rewrite (agree_off_types f task_args q).
      * intros _ r Hr. rewrite (agree_off_types f task_args q r); try done.
        destruct (Hreq r Hr) as [-> | ->]; done.
    + congruence.
    + apply (agree_off_dispatch athena f task_args q params1 params2); try done.
      intros _. unfold flag_on, param.
      rewrite Hfalse. unfold q. by rewrite lookup_delete_eq.
  - intros good recss Hpag Hpages Hgood.
    by apply (run_pages_good athena {["list_databases" := ABool false]}
                (set_defaults argument_spec
                   (check_argument_types argument_spec
                      (handle_aliases argument_spec
                         {["list_databases" := ABool false]})))
                Catalogs good recss).
Qed.

Lemma false_flag_like_unset_witness :
  run scenario_client unset_example
  = run scenario_client (delete "list_database_tables" unset_example)
  ∧ ∀ good recss,
      can_paginate scenario_client "list_data_catalogs" = true →
      pages scenario_client (Request "list_data_catalogs" []) = inr <$> good →
      Forall2 (page_has "DataCatalogsSummary") good recss →
      run scenario_client {["list_databases" := ABool false]} =
      (Exit (exit_json "catalogs" (normalized (concat recss))),
       fetches (Request "list_data_catalogs" []) 0 (length good)).
Proof.
  apply (false_flag_like_unset scenario_client unset_example
           (set_defaults argument_spec
              (check_argument_types argument_spec
                 (handle_aliases argument_spec unset_example)))).
  - reflexivity.
  - right. by left.
  - reflexivity.
Defined.

(** C10: when [list_database_tables] is not true and [list_work_groups]
    is not set, [database_name] has no effect: two invocations that
    differ at most in [database_name] end alike (both fail validation the
    same way, or both return the same output) and make the same
    requests. *)
Theorem database_name_ignored athena (args1 args2 : gmap string arg) :
  agree_off "database_name" args1 args2 →
  flag_on args1 "list_database_tables" = false →
  args1 !! "list_work_groups" = None →
  run athena args1 = run athena args2.
Proof.
  intros Hagree Htables Hwg.
  assert (∀ k, k ≠ "database_name" →
               handle_aliases argument_spec args1 !! k
               = handle_aliases argument_spec args2 !! k) as Hal
    by (intros k Hk; by apply (agree_off_aliases "database_name")).
  assert (∀ k, k ≠ "database_name" →
               check_argument_types argument_spec
                 (handle_aliases argument_spec args1) !! k
               = check_argument_types argument_spec
                   (handle_aliases argument_spec args2) !! k) as Hty
    by (intros k Hk; by apply (agree_off_types "database_name")).
  assert (flag_on args2 "list_database_tables" = false) as Htables2.
  { unfold flag_on, param in *.
    by rewrite <- (Hagree "list_database_tables"). }
  destruct (validation_same_checks args1 args2)
    as [(err & H1 & H2)|(params1 & params2 & H1 & H2)].
  - apply check_mutually_exclusive_ext. intros check.
    unfold mutually_exclusive. rewrite !elem_of_cons, elem_of_nil.
    intros [->|[->|[->|[]]]].
    + rewrite (count_terms_ext _ _ (handle_aliases argument_spec args2)); [done|].
      intros k. rewrite !elem_of_cons, elem_of_nil.
      intros [->|[->|[->|[]]]]; by rewrite Hal.
    + rewrite (count_terms_ext _ _ (handle_aliases argument_spec args2)); [done|].
      intros k. rewrite !elem_of_cons, elem_of_nil.
      intros [->|[->|[]]]; by rewrite Hal.
    + rewrite !count_terms_cons, !count_terms_nil.
      rewrite <- (Hal "list_work_groups") by done.
      rewrite (handle_aliases_lookup args1 "list_work_groups").
      rewrite decide_False, Hwg by done.
      destruct (handle_aliases argument_spec args1 !! "database_name"),
        (handle_aliases argument_spec args2 !! "database_name"); lia.
  - assert ("list_database_tables" ∈ mode_flags) as Hflag by (right; by left).
    apply check_required_if_ext, Forall_forall. intros e.
    unfold required_if. rewrite !elem_of_cons, elem_of_nil.
    intros [->|[->|[]]]; cbn [fst snd].
    + split; [by rewrite Hty|].
      intros _ r. rewrite elem_of_cons, elem_of_nil.
      intros [->|[]]. by rewrite Hty.
    + split.
      * split; intros Hon; apply coerced_flag_true in Hon; congruence.
      * intros Hon. apply coerced_flag_true in Hon; congruence.
  - by rewrite (run_invalid _ _ _ H1), (run_invalid _ _ _ H2).
  - apply (agree_off_dispatch athena "database_name" args1 args2 params1 params2);
      try done.
    intros Hin. by apply mode_flag_cases in Hin as (_ & _ & ?).
Qed.

Lemma database_name_ignored_witness :
  run scenario_client databases_args
  = run scenario_client (<["database_name" := AStr "sampledb"]> databases_args).
Proof.
  apply (database_name_ignored scenario_client databases_args
           (<["database_name" := AStr "sampledb"]> databases_args)).
  - intros k Hk. by rewrite lookup_insert_ne.
  - vm_compute. reflexivity.
  - vm_compute. reflexivity.
Defined.

(** C1: with [list_work_groups] true and validation passed, the records
    of the single response are returned under [work_groups] when the
    client does not paginate the operation; when it does, [main]
    subscripts the page iterator and the invocation dies on a
    [TypeError] without a request, instead of returning the records of
    the pages. *)
Theorem work_groups_paginated_or_single athena (task_args : gmap string arg) params :
  AnsibleAWSModule task_args = inr params →
  flag_on task_args "list_work_groups" = true →
  (can_paginate athena "list_work_groups" = true →
   run athena task_args = (Raise (TypeError "subscript"), []))
  ∧ (∀ response recs,
       can_paginate athena "list_work_groups" = false →
       call athena (Request "list_work_groups" []) = inr response →
       page_has "WorkGroups" response recs →
       run athena task_args =
       (Exit (exit_json "work_groups" (normalized recs)),
        [ApiCall (Request "list_work_groups" [])])).
Proof.
  intros Hok Hwg. split.
  - intros Hpag. by apply (run_work_groups_paginated athena task_args params).
  - intros response recs Hpag Hcall Hpage.
    by apply (run_work_groups_single athena task_args params response recs).
Qed.

Lemma work_groups_paginated_or_single_witness :
  run paginating_client work_groups_args = (Raise (TypeError "subscript"), [])
  ∧ run single_call_client work_groups_args =
    (Exit (exit_json "work_groups" (normalized [sample_work_group])),
     [ApiCall (Request "list_work_groups" [])]).
Proof.
  split.
  - apply (proj1 (work_groups_paginated_or_single paginating_client
                    work_groups_args
                    (set_defaults argument_spec
                       (check_argument_types argument_spec
                          (handle_aliases argument_spec work_groups_args)))
                    eq_refl eq_refl)).
    reflexivity.
  - apply (proj2 (work_groups_paginated_or_single single_call_client
                    work_groups_args
                    (set_defaults argument_spec
                       (check_argument_types argument_spec
                          (handle_aliases argument_spec work_groups_args)))
                    eq_refl eq_refl)
             work_groups_page [sample_work_group]); reflexivity.
Defined.

(** C2: a refused page request in the default mode is raised while
    [main] iterates, outside the [try] of [_athena]: the process dies on
    the uncaught [ClientError] and [fail_json_aws] is not called, whereas
    the same refusal of the direct [list_work_groups] call is reported
    through [fail_json_aws].  Neither run returns an output key. *)
Theorem refused_page_request_escapes :
  run denied_client ∅ =
  (Raise (AwsError (ClientError "AccessDeniedException")),
   [PageFetch (Request "list_data_catalogs" []) 0])
  ∧ run denied_client work_groups_args =
    (Exit (fail_json_aws (ClientError "AccessDeniedException")
             "Failed to fetch aws athena details"),
     [ApiCall (Request "list_work_groups" [])]).
Proof. split; vm_compute; reflexivity. Qed.

(** C8: in the modes that iterate pages, only building the iterator is
    covered by [_athena]'s error handling: an operation the client cannot
    paginate ends in [fail_json_aws], but an error raised by a page
    request leaves [main] uncaught, whatever its code, after the pages
    before it were fetched and the failing request was issued once. *)
Theorem page_errors_not_converted athena (task_args : gmap string arg) params m :
  AnsibleAWSModule task_args = inr params →
  mode_of task_args = m →
  m ≠ WorkGroups →
  (can_paginate athena (operation (mode_request m params)) = false →
   run athena task_args =
   (Exit (fail_json_aws (BotoCoreError "OperationNotPageableError")
            "Failed to fetch aws athena details"), []))
  ∧ (∀ good recss e rest,
       can_paginate athena (operation (mode_request m params)) = true →
       pages athena (mode_request m params)
       = ((inr <$> good) ++ inl e :: rest)%list →
       Forall2 (page_has (mode_key m)) good recss →
       run athena task_args =
       (Raise (AwsError e), fetches (mode_request m params) 0 (S (length good)))).
Proof.
  intros Hok Hm Hwg. split.
  - intros Hpag. by apply (run_not_pageable athena task_args params m).
  - intros good recss e rest Hpag Hpages Hgood.
    by apply (run_pages_error athena task_args params m good recss e rest).
Qed.

Lemma page_errors_not_converted_witness :
  run unpageable_client ∅ =
  (Exit (fail_json_aws (BotoCoreError "OperationNotPageableError")
           "Failed to fetch aws athena details"), [])
  ∧ run throttled_client ∅ =
    (Raise (AwsError (ClientError "ThrottlingException")),
     [PageFetch (Request "list_data_catalogs" []) 0;
      PageFetch (Request "list_data_catalogs" []) 1]).
Proof.
  assert (Catalogs ≠ WorkGroups) as Hm by discriminate.
  assert (AnsibleAWSModule ∅
          = inr (set_defaults argument_spec
                   (check_argument_types argument_spec
                      (handle_aliases argument_spec ∅)))) as Hok
    by reflexivity.
  split.
  - apply (proj1 (page_errors_not_converted unpageable_client ∅ _
                    Catalogs Hok eq_refl Hm)).
    reflexivity.
  - apply (proj2 (page_errors_not_converted throttled_client ∅ _
                    Catalogs Hok eq_refl Hm)
             [catalog_page] [[sample_catalog]]
             (ClientError "ThrottlingException") [inr catalog_page]).
    + reflexivity.
    + reflexivity.
    + repeat constructor.
Defined.

(** C5 as stated fails: with [list_work_groups=false] and [name] both
    supplied, no mode flag is true, the client would serve the catalogs,
    and yet the invocation fails validation (the two options exclude each
    other whatever their values) and lists nothing. *)
Lemma default_mode_counterexample :
  flag_on false_flag_with_name "list_databases" = false
  ∧ flag_on false_flag_with_name "list_database_tables" = false
  ∧ flag_on false_flag_with_name "list_work_groups" = false
  ∧ run scenario_client false_flag_with_name
    = (Exit (fail_json (MutuallyExclusive [["name"; "list_work_groups"]])), [])
  ∧ ¬ ∃ recs trace,
        run scenario_client false_flag_with_name
        = (Exit (exit_json "catalogs" recs), trace).
Proof.
  assert (run scenario_client false_flag_with_name
          = (Exit (fail_json (MutuallyExclusive [["name"; "list_work_groups"]])),
             [])) as Hrun by (vm_compute; reflexivity).
  do 3 (split; [vm_compute; reflexivity|]).
  split; [exact Hrun|].
  intros (recs & trace & Hcat). rewrite Hrun in Hcat. discriminate Hcat.
Qed.

(** C5, amended: an invocation that passes validation with none of the
    three mode flags true takes the catalog-listing path: when every page
    request succeeds, it exits with [catalogs] holding the records of all
    pages in order, keys renamed to snake_case, having requested each
    page once.  In particular no arguments and the one raw page
    [{"CatalogName": "AwsDataCatalog", "Type": "GLUE"}] give
    [{"catalog_name": "AwsDataCatalog", "type": "GLUE"}]. *)
Theorem default_mode_lists_catalogs athena (task_args : gmap string arg)
    params good recss :
  AnsibleAWSModule task_args = inr params →
  flag_on task_args "list_databases" = false →
  flag_on task_args "list_database_tables" = false →
  flag_on task_args "list_work_groups" = false →
  can_paginate athena "list_data_catalogs" = true →
  pages athena (Request "list_data_catalogs" []) = inr <$> good →
  Forall2 (page_has "DataCatalogsSummary") good recss →
  run athena task_args =
  (Exit (exit_json "catalogs" (normalized (concat recss))),
   fetches (Request "list_data_catalogs" []) 0 (length good))
  ∧ run scenario_client ∅ =
    (Exit (exit_json "catalogs"
             [VDict [("catalog_name", VStr "AwsDataCatalog");
                     ("type", VStr "GLUE")]]),
     [PageFetch (Request "list_data_catalogs" []) 0]).
Proof.
  intros Hok Hd Ht Hw Hpag Hpages Hgood. split.
  - apply (run_pages_good athena task_args params Catalogs good recss);
      try done.
    unfold mode_of. by rewrite Hd, Ht, Hw.
  - vm_compute. reflexivity.
Qed.

Lemma default_mode_lists_catalogs_witness :
  run scenario_client name_only =
  (Exit (exit_json "catalogs" (normalized (concat [[sample_catalog]]))),
   fetches (Request "list_data_catalogs" []) 0 (length [catalog_page]))
  ∧ run scenario_client ∅ =
    (Exit (exit_json "catalogs"
             [VDict [("catalog_name", VStr "AwsDataCatalog");
                     ("type", VStr "GLUE")]]),
     [PageFetch (Request "list_data_catalogs" []) 0]).
Proof.
  assert (AnsibleAWSModule name_only
          = inr (set_defaults argument_spec
                   (check_argument_types argument_spec
                      (handle_aliases argument_spec name_only)))) as Hok
    by reflexivity.
  apply (default_mode_lists_catalogs scenario_client name_only _
           [catalog_page] [[sample_catalog]] Hok);
    try reflexivity.
  repeat constructor.
Defined.

(** ** The loops of [main] as functions of the responses *)

Lemma for_each_records xs acc t :
  for_each xs
    (λ x acc, r ← lift (camel_dict_to_snake_dict x); mret (acc ++ [r])%list) acc t
  = (match normalize_all xs with
     | inl e => Raise e
     | inr rs => Val (acc ++ rs)%list
     end, t).
Proof.
  revert acc. induction xs as [|x xs IH]; intros acc.
  - simpl. by rewrite app_nil_r.
  - cbn [for_each normalize_all].
    destruct (camel_dict_to_snake_dict x) as [e|r] eqn:Hx.
    + by rewrite (bind_raise _ _ t e t) by done.
    + rewrite (bind_val _ _ t (acc ++ [r])%list t) by done.
      rewrite IH. destruct (normalize_all xs) as [e|rs]; [done|].
      by rewrite <- app_assoc.
Qed.

Lemma append_normalized_records key page acc t :
  append_normalized page key acc t
  = (match page_records key page with
     | inl e => Raise e
     | inr rs => Val (acc ++ rs)%list
     end, t).
Proof.
  unfold append_normalized, page_records.
  destruct (subscript page key) as [e|items] eqn:Hs.
  { by rewrite (bind_raise _ _ t e t). }
  rewrite (bind_val _ _ t items t) by done.
  destruct (iter_value items) as [e|xs] eqn:Hi.
  { by rewrite (bind_raise _ _ t e t) by done. }
  rewrite (bind_val _ _ t xs t) by done.
  apply for_each_records.
Qed.

Lemma for_pages_walk r key script i acc t :
  for_pages r script i (λ page acc, append_normalized page key acc) acc t
  = (match (walk key script acc).1 with
     | inl e => Raise e
     | inr recs => Val recs
     end,
     (t ++ fetches r i (walk key script acc).2)%list).
Proof.
  revert i acc t. induction script as [|[e|page] script IH]; intros i acc t.
  - simpl. by rewrite app_nil_r.
  - cbn [for_pages walk].
    by rewrite (bind_val _ _ t tt (t ++ [PageFetch r i])%list) by done.
  - cbn [for_pages walk].
    rewrite (bind_val _ _ t tt (t ++ [PageFetch r i])%list) by done.
    pose proof (append_normalized_records key page acc (t ++ [PageFetch r i])%list)
      as Hpage.
    destruct (page_records key page) as [e|rs].
    + by rewrite (bind_raise _ _ _ _ _ Hpage).
    + rewrite (bind_val _ _ _ _ _ Hpage), IH.
      destruct (walk key script (acc ++ rs)%list) as [res n]. simpl.
      by rewrite fetches_cons, <- app_assoc.
Qed.

Lemma walk_fetched_le key script acc :
  ((walk key script acc).2 ≤ length script)%nat.
Proof.
  revert acc. induction script as [|[e|page] script IH]; intros acc; simpl.
  - done.
  - lia.
  - destruct (page_records key page) as [e|rs]; simpl; [lia|].
    specialize (IH (acc ++ rs)%list).
    destruct (walk key script (acc ++ rs)%list) as [res n]. simpl in *. lia.
Qed.

Lemma walk_complete key script acc recs :
  (walk key script acc).1 = inr recs →
  ∃ good recss,
    script = inr <$> good
    ∧ Forall2 (λ page rs, page_records key page = inr rs) good recss
    ∧ recs = (acc ++ concat recss)%list
    ∧ (walk key script acc).2 = length good.
Proof.
  revert acc. induction script as [|[e|page] script IH]; intros acc; simpl.
  - intros [= <-]. exists [], []. by rewrite app_nil_r.
  - done.
  - destruct (page_records key page) as [e|rs] eqn:Hpage; [done|].
    specialize (IH (acc ++ rs)%list).
    destruct (walk key script (acc ++ rs)%list) as [res n]. simpl in *.
    intros Hres. destruct (IH Hres) as (good & recss & -> & Hall & -> & ->).
    exists (page :: good), (rs :: recss). repeat split; try done.
    + by constructor.
    + simpl. by rewrite <- app_assoc.
Qed.

(** An invocation in a mode that iterates, once validated and the
    iterator built, is the walk over the page requests. *)
Lemma run_walk athena p params m :
  AnsibleAWSModule p = inr params →
  mode_of p = m →
  m ≠ WorkGroups →
  can_paginate athena (operation (mode_request m params)) = true →
  run athena p =
  (match (walk (mode_key m) (pages athena (mode_request m params)) []).1 with
   | inl e => Raise e
   | inr recs => Exit (exit_json (output_key m) recs)
   end,
   fetches (mode_request m params) 0
     (walk (mode_key m) (pages athena (mode_request m params)) []).2).
Proof.
  intros Hok Hm Hwg Hpag.
  rewrite (run_iterating _ _ _ _ Hok Hm Hwg Hpag).
  pose proof (for_pages_walk (mode_request m params) (mode_key m)
                (pages athena (mode_request m params)) 0 [] []) as Hwalk.
  destruct (walk (mode_key m) (pages athena (mode_request m params)) [])
    as [[e|recs] n]; simpl in *.
  - by rewrite (bind_raise _ _ _ _ _ Hwalk).
  - by rewrite (bind_val _ _ _ _ _ Hwalk).
Qed.

(** The work-groups mode with a client that does not paginate the
    operation: one direct call, then the loop over its response. *)
Lemma run_work_groups_call athena p params :
  AnsibleAWSModule p = inr params →
  flag_on p "list_work_groups" = true →
  can_paginate athena "list_work_groups" = false →
  run athena p =
  (match call athena work_groups_call with
   | inl e => Exit (fail_json_aws e "Failed to fetch aws athena details")
   | inr response =>
       match page_records "WorkGroups" response with
       | inl e => Raise e
       | inr rs => Exit (exit_json "work_groups" rs)
       end
   end, [ApiCall work_groups_call]).
Proof.
  intros Hok Hwg Hpag.
  destruct (validated_work_groups_alone _ _ Hok Hwg) as [Hd Ht].
  assert (∀ t, _athena athena params t
               = (match call athena work_groups_call with
                  | inl e => Exit (fail_json_aws e "Failed to fetch aws athena details")
                  | inr response => Val (Response response)
                  end, (t ++ [ApiCall work_groups_call])%list)) as Hit.
  { intros t. rewrite _athena_unguarded. unfold _athena_body, try_except_aws.
    rewrite !(validated_flag p params) by (done || set_solver).
    rewrite Hd, Ht, Hwg, Hpag. unfold api_call. fold work_groups_call.
    destruct (call athena work_groups_call) as [e|response] eqn:Hcall.
    - rewrite (bind_raise _ _ t (AwsError e) (t ++ [ApiCall work_groups_call])%list);
        [done|].
      by rewrite (bind_val _ _ t tt (t ++ [ApiCall work_groups_call])%list) by done.
    - rewrite (bind_val _ _ t response (t ++ [ApiCall work_groups_call])%list);
        [done|].
      by rewrite (bind_val _ _ t tt (t ++ [ApiCall work_groups_call])%list) by done. }
  unfold run, main. rewrite Hok. specialize (Hit []).
  destruct (call athena work_groups_call) as [e|response].
  { by rewrite (bind_exit _ _ _ _ _ Hit). }
  rewrite (bind_val _ _ _ _ _ Hit).
  rewrite !(validated_flag p params) by (done || set_solver).
  rewrite Hd, Ht, Hwg. unfold page_records.
  change (subscript_obj (Response response) "WorkGroups")
    with (subscript response "WorkGroups").
  set (tr := [ApiCall work_groups_call]).
  destruct (subscript response "WorkGroups") as [e|items] eqn:Hs.
  { by rewrite (bind_raise _ _ tr e tr). }
  rewrite (bind_val _ _ tr items tr) by done.
  destruct (iter_value items) as [e|xs] eqn:Hi.
  { by rewrite (bind_raise _ _ tr e tr) by done. }
  rewrite (bind_val _ _ tr xs tr) by done.
  pose proof (for_each_records xs [] tr) as Hloop.
  destruct (normalize_all xs) as [e|rs].
  - by rewrite (bind_raise _ _ _ _ _ Hloop).
  - by rewrite (bind_val _ _ _ _ _ Hloop).
Qed.

Lemma normalize_all_dicts recs :
  normalize_all (VDict <$> recs) = inr (normalized recs).
Proof.
  induction recs as [|d recs IH]; [done|].
  rewrite fmap_cons. cbn [normalize_all camel_dict_to_snake_dict].
  by rewrite IH.
Qed.

Lemma page_has_records key page recs :
  page_has key page recs → page_records key page = inr (normalized recs).
Proof.
  unfold page_has, page_records. intros ->.
  cbn [iter_value]. apply normalize_all_dicts.
Qed.

Lemma walk_good_prefix key good recss rest acc :
  Forall2 (page_has key) good recss →
  walk key ((inr <$> good) ++ rest)%list acc
  = ((walk key rest (acc ++ normalized (concat recss))%list).1,
     (length good + (walk key rest (acc ++ normalized (concat recss))%list).2)%nat).
Proof.
  intros Hgood. revert acc.
  induction Hgood as [|page recs good recss Hpage _ IH]; intros acc.
  - simpl. rewrite app_nil_r. by destruct (walk key rest acc).
  - rewrite fmap_cons. cbn [app walk concat length].
    rewrite (page_has_records _ _ _ Hpage), IH.
    unfold normalized. by rewrite fmap_app, <- app_assoc.
Qed.

Lemma mode_of_iterating_cases p :
  mode_of p = WorkGroups → flag_on p "list_work_groups" = true.
Proof.
  unfold mode_of.
  destruct (flag_on p "list_databases"); [done|].
  destruct (flag_on p "list_database_tables"); [done|].
  by destruct (flag_on p "list_work_groups").
Qed.

Lemma mode_of_cases p : mode_of p = WorkGroups ∨ mode_of p ≠ WorkGroups.
Proof. destruct (mode_of p); (by left) || (by right). Qed.

(** ** Further properties of [_athena] and [main] *)

(** X1: with [list_databases] true, a validated invocation asks for the
    databases of the catalog [module.params['name']], one request per
    page, and exits with [databases] holding the records of all pages in
    order, normalized. *)
Theorem databases_mode_lists_databases athena (task_args : gmap string arg)
    params good recss :
  AnsibleAWSModule task_args = inr params →
  flag_on task_args "list_databases" = true →
  can_paginate athena "list_databases" = true →
  pages athena (Request "list_databases" [("CatalogName", param params "name")])
  = inr <$> good →
  Forall2 (page_has "DatabaseList") good recss →
  run athena task_args =
  (Exit (exit_json "databases" (normalized (concat recss))),
   fetches (Request "list_databases" [("CatalogName", param params "name")])
     0 (length good)).
Proof.
  intros Hok Hd Hpag Hpages Hgood.
  apply (run_pages_good athena task_args params Databases good recss);
    try done.
  unfold mode_of. by rewrite Hd.
Qed.

Lemma databases_mode_lists_databases_witness :
  run catalog_contents_client databases_args =
  (Exit (exit_json "databases"
           (normalized (concat [[[("Name", VStr "sampledb");
                                  ("Description", VStr "Sample database")]]]))),
   fetches (Request "list_databases"
              [("CatalogName",
                param (set_defaults argument_spec
                         (check_argument_types argument_spec
                            (handle_aliases argument_spec databases_args)))
                  "name")])
     0 (length [database_page])).
Proof.
  assert (AnsibleAWSModule databases_args
          = inr (set_defaults argument_spec
                   (check_argument_types argument_spec
                      (handle_aliases argument_spec databases_args)))) as Hok
    by reflexivity.
  apply (databases_mode_lists_databases catalog_contents_client databases_args _
           [database_page]
           [[[("Name", VStr "sampledb"); ("Description", VStr "Sample database")]]]
           Hok); try reflexivity.
  repeat constructor.
Defined.

(** X2: with [list_database_tables] true (and [list_databases] not), a
    validated invocation asks for the table metadata of the database
    [module.params['database_name']] in the catalog
    [module.params['name']], one request per page, and exits with
    [tables] holding the records of all pages in order, normalized. *)
Theorem tables_mode_lists_tables athena (task_args : gmap string arg)
    params good recss :
  AnsibleAWSModule task_args = inr params →
  flag_on task_args "list_databases" = false →
  flag_on task_args "list_database_tables" = true →
  can_paginate athena "list_table_metadata" = true →
  pages athena (Request "list_table_metadata"
                  [("CatalogName", param params "name");
                   ("DatabaseName", param params "database_name")])
  = inr <$> good →
  Forall2 (page_has "TableMetadataList") good recss →
  run athena task_args =
  (Exit (exit_json "tables" (normalized (concat recss))),
   fetches (Request "list_table_metadata"
              [("CatalogName", param params "name");
               ("DatabaseName", param params "database_name")])
     0 (length good)).
Proof.
  intros Hok Hd Ht Hpag Hpages Hgood.
  apply (run_pages_good athena task_args params Tables good recss);
    try done.
  unfold mode_of. by rewrite Hd, Ht.
Qed.

Lemma tables_mode_lists_tables_witness :
  run catalog_contents_client tables_args =
  (Exit (exit_json "tables" (normalized (concat [[sample_table]]))),
   fetches (Request "list_table_metadata"
              [("CatalogName",
                param (set_defaults argument_spec
                         (check_argument_types argument_spec
                            (handle_aliases argument_spec tables_args)))
                  "name");
               ("DatabaseName",
                param (set_defaults argument_spec
                         (check_argument_types argument_spec
                            (handle_aliases argument_spec tables_args)))
                  "database_name")])
     0 (length [table_page])).
Proof.
  assert (AnsibleAWSModule tables_args
          = inr (set_defaults argument_spec
                   (check_argument_types argument_spec
                      (handle_aliases argument_spec tables_args)))) as Hok
    by reflexivity.
  apply (tables_mode_lists_tables catalog_contents_client tables_args _
           [table_page] [[sample_table]] Hok); try reflexivity.
  repeat constructor.
Defined.

(** X3: [_athena] issues no request when it builds a page iterator or
    fails to build one; its only request is the direct [list_work_groups]
    call, made when [list_work_groups] is the first flag that holds and
    the client cannot paginate the operation. *)
Theorem _athena_request_log athena (params : gmap string arg) t :
  (_athena athena params t).2 =
  if negb (truthy (param params "list_databases"))
     && negb (truthy (param params "list_database_tables"))
     && truthy (param params "list_work_groups")
     && negb (can_paginate athena "list_work_groups")
  then (t ++ [ApiCall work_groups_call])%list
  else t.
Proof.
  rewrite _athena_unguarded.
  unfold _athena_body, try_except_aws, paginate, api_call, work_groups_call.
  unfold mbind, M_bind, mret, M_ret, log, raise, halt.
  destruct (truthy (param params "list_databases")).
  { by destruct (can_paginate athena "list_databases"). }
  destruct (truthy (param params "list_database_tables")).
  { by destruct (can_paginate athena "list_table_metadata"). }
  destruct (truthy (param params "list_work_groups")).
  - destruct (can_paginate athena "list_work_groups"); [done|].
    by destruct (call athena _).
  - by destruct (can_paginate athena "list_data_catalogs").
Qed.

(** X4: no exception leaves [_athena]: it returns an object, or the
    process exits through [fail_json_aws] with the message
    ['Failed to fetch aws athena details']. *)
Theorem _athena_failures_reported athena (params : gmap string arg) t :
  match (_athena athena params t).1 with
  | Val _ => True
  | Raise _ => False
  | Exit x => ∃ e, x = fail_json_aws e "Failed to fetch aws athena details"
  end.
Proof.
  rewrite _athena_unguarded.
  unfold _athena_body, try_except_aws, paginate, api_call.
  unfold mbind, M_bind, mret, M_ret, log, raise, halt.
  destruct (truthy (param params "list_databases")).
  { destruct (can_paginate athena "list_databases"); simpl; eauto. }
  destruct (truthy (param params "list_database_tables")).
  { destruct (can_paginate athena "list_table_metadata"); simpl; eauto. }
  destruct (truthy (param params "list_work_groups")).
  - destruct (can_paginate athena "list_work_groups"); simpl; [done|].
    destruct (call athena _); simpl; eauto.
  - destruct (can_paginate athena "list_data_catalogs"); simpl; eauto.
Qed.

(** X5: the retry decorator of [_athena] never runs the body again: the
    body turns every [BotoCoreError] and [ClientError] into
    [fail_json_aws] itself, so for any retry list and any number of
    retries the decorated function is the undecorated body. *)
Theorem retry_decorator_idle athena (params : gmap string arg)
    is_retryable retries t :
  exponential_backoff is_retryable retries (_athena_body athena params) t
  = _athena_body athena params t.
Proof.
  apply exponential_backoff_unused.
  intros e t'. unfold _athena_body. apply try_except_aws_halts.
Qed.

(** X6: in work-groups mode with a client that does not paginate the
    operation, an error of the direct call, whatever its code, is
    reported through [fail_json_aws] after that one request. *)
Theorem work_groups_call_error_reported athena (task_args : gmap string arg)
    params e :
  AnsibleAWSModule task_args = inr params →
  flag_on task_args "list_work_groups" = true →
  can_paginate athena "list_work_groups" = false →
  call athena work_groups_call = inl e →
  run athena task_args =
  (Exit (fail_json_aws e "Failed to fetch aws athena details"),
   [ApiCall work_groups_call]).
Proof.
  intros Hok Hwg Hpag Hcall.
  rewrite (run_work_groups_call _ _ _ Hok Hwg Hpag). by rewrite Hcall.
Qed.

Lemma work_groups_call_error_reported_witness :
  run denied_client work_groups_args =
  (Exit (fail_json_aws (ClientError "AccessDeniedException")
           "Failed to fetch aws athena details"),
   [ApiCall work_groups_call]).
Proof.
  apply (work_groups_call_error_reported denied_client work_groups_args
           (set_defaults argument_spec
              (check_argument_types argument_spec
                 (handle_aliases argument_spec work_groups_args))));
    reflexivity.
Defined.

(** X7: in a mode that iterates, a page without the key of the records
    makes [main] die on a [KeyError] right after that page was
    requested: the records of the pages before it are dropped and the
    pages after it are not requested. *)
Theorem page_without_records_key athena (task_args : gmap string arg)
    params m good recss bad rest :
  AnsibleAWSModule task_args = inr params →
  mode_of task_args = m →
  m ≠ WorkGroups →
  can_paginate athena (operation (mode_request m params)) = true →
  pages athena (mode_request m params)
  = ((inr <$> good) ++ inr (VDict bad) :: rest)%list →
  Forall2 (page_has (mode_key m)) good recss →
  dict_get bad (mode_key m) = None →
  run athena task_args =
  (Raise (KeyError (mode_key m)),
   fetches (mode_request m params) 0 (S (length good))).
Proof.
  intros Hok Hm Hwg Hpag Hpages Hgood Hbad.
  rewrite (run_walk _ _ _ _ Hok Hm Hwg Hpag), Hpages.
  rewrite (walk_good_prefix _ _ _ _ _ Hgood).
  cbn [walk]. unfold page_records, subscript. rewrite Hbad.
  cbn [fst snd]. by rewrite Nat.add_1_r.
Qed.

Lemma page_without_records_key_witness :
  run truncated_client ∅ =
  (Raise (KeyError (mode_key Catalogs)),
   fetches (mode_request Catalogs
              (set_defaults argument_spec
                 (check_argument_types argument_spec
                    (handle_aliases argument_spec ∅))))
     0 (S (length [catalog_page]))).
Proof.
  assert (Catalogs ≠ WorkGroups) as Hm by discriminate.
  assert (AnsibleAWSModule ∅
          = inr (set_defaults argument_spec
                   (check_argument_types argument_spec
                      (handle_aliases argument_spec ∅)))) as Hok
    by reflexivity.
  apply (page_without_records_key truncated_client ∅ _ Catalogs
           [catalog_page] [[sample_catalog]] [("NextToken", VStr "t")]
           [inr catalog_page] Hok eq_refl Hm); try reflexivity.
  repeat constructor.
Defined.

(** X8: in work-groups mode with a client that does not paginate the
    operation, a response without [WorkGroups] makes [main] die on a
    [KeyError] after the one request. *)
Theorem work_groups_response_without_key athena (task_args : gmap string arg)
    params response :
  AnsibleAWSModule task_args = inr params →
  flag_on task_args "list_work_groups" = true →
  can_paginate athena "list_work_groups" = false →
  call athena work_groups_call = inr (VDict response) →
  dict_get response "WorkGroups" = None →
  run athena task_args =
  (Raise (KeyError "WorkGroups"), [ApiCall work_groups_call]).
Proof.
  intros Hok Hwg Hpag Hcall Hkey.
  rewrite (run_work_groups_call _ _ _ Hok Hwg Hpag), Hcall.
  unfold page_records, subscript. by rewrite Hkey.
Qed.

Lemma work_groups_response_without_key_witness :
  run keyless_client work_groups_args =
  (Raise (KeyError "WorkGroups"), [ApiCall work_groups_call]).
Proof.
  apply (work_groups_response_without_key keyless_client work_groups_args
           (set_defaults argument_spec
              (check_argument_types argument_spec
                 (handle_aliases argument_spec work_groups_args)))
           [("ResponseMetadata", VDict [])]);
    reflexivity.
Defined.

(** X9: output is returned only by a validated invocation, and under the
    one key of its mode: a run that ends in [exit_json(key=...)] passed
    validation and [key] is the output key of the mode the flags
    select. *)
Theorem exit_key_follows_mode athena (task_args : gmap string arg) key recs t :
  run athena task_args = (Exit (exit_json key recs), t) →
  ∃ params, AnsibleAWSModule task_args = inr params
            ∧ key = output_key (mode_of task_args).
Proof.
  intros Hrun.
  destruct (AnsibleAWSModule task_args) as [err|params] eqn:Hok.
  { rewrite (run_invalid _ _ _ Hok) in Hrun. discriminate Hrun. }
  exists params. split; [done|].
  assert (∀ m, mode_of task_args = m → m ≠ WorkGroups → key = output_key m)
    as Hiter.
  { intros m Hm Hne.
    destruct (can_paginate athena (operation (mode_request m params))) eqn:Hpag.
    - rewrite (run_walk _ _ _ _ Hok Hm Hne Hpag) in Hrun.
      destruct (walk _ _ _) as [[e|rs] n]; simpl in Hrun; congruence.
    - rewrite (run_not_pageable _ _ _ _ Hok Hm Hne Hpag) in Hrun.
      discriminate Hrun. }
  destruct (mode_of task_args) eqn:Hm; try (by apply Hiter).
  pose proof (mode_of_iterating_cases _ Hm) as Hwg.
  destruct (can_paginate athena "list_work_groups") eqn:Hpag.
  - rewrite (run_work_groups_paginated _ _ _ Hok Hwg Hpag) in Hrun.
    discriminate Hrun.
  - rewrite (run_work_groups_call _ _ _ Hok Hwg Hpag) in Hrun.
    destruct (call athena work_groups_call) as [e|response]; [discriminate Hrun|].
    destruct (page_records "WorkGroups" response); simpl in Hrun;
      cbn [output_key]; congruence.
Qed.

Lemma exit_key_follows_mode_witness :
  ∃ params, AnsibleAWSModule ∅ = inr params
            ∧ "catalogs" = output_key (mode_of ∅).
Proof.
  apply (exit_key_follows_mode scenario_client ∅ "catalogs"
           [VDict [("catalog_name", VStr "AwsDataCatalog");
                   ("type", VStr "GLUE")]]
           [PageFetch (Request "list_data_catalogs" []) 0]).
  vm_compute. reflexivity.
Defined.

(** X10: every request of an invocation is for the one operation of its
    mode: the request log is empty, or it is the single direct
    [list_work_groups] call of the work-groups mode, or it is the first
    [n] page requests, in order and once each, of the iterator of the
    mode. *)
Theorem requests_follow_mode athena (task_args : gmap string arg) :
  (run athena task_args).2 = []
  ∨ (mode_of task_args = WorkGroups
     ∧ (run athena task_args).2 = [ApiCall work_groups_call])
  ∨ ∃ params n,
      AnsibleAWSModule task_args = inr params
      ∧ mode_of task_args ≠ WorkGroups
      ∧ (n ≤ length (pages athena (mode_request (mode_of task_args) params)))%nat
      ∧ (run athena task_args).2
        = fetches (mode_request (mode_of task_args) params) 0 n.
Proof.
  destruct (AnsibleAWSModule task_args) as [err|params] eqn:Hok.
  { left. by rewrite (run_invalid _ _ _ Hok). }
  destruct (mode_of_cases task_args) as [Hm|Hne].
  - pose proof (mode_of_iterating_cases _ Hm) as Hwg.
    destruct (can_paginate athena "list_work_groups") eqn:Hpag.
    + left. by rewrite (run_work_groups_paginated _ _ _ Hok Hwg Hpag).
    + right; left. split; [done|].
      by rewrite (run_work_groups_call _ _ _ Hok Hwg Hpag).
  - destruct (can_paginate athena
                (operation (mode_request (mode_of task_args) params))) eqn:Hpag.
    + right; right. exists params.
      exists (walk (mode_key (mode_of task_args))
                (pages athena (mode_request (mode_of task_args) params)) []).2.
      split; [done|]. split; [done|]. split; [apply walk_fetched_le|].
      by rewrite (run_walk _ _ _ _ Hok eq_refl Hne Hpag).
    + left. by rewrite (run_not_pageable _ _ _ _ Hok eq_refl Hne Hpag).
Qed.

(** X11: no partial result: in a mode that iterates, a run that ends in
    [exit_json] has requested every page of the iterator, each request
    succeeded, and the records returned are those of all the pages, in
    order. *)
Theorem exit_means_all_pages athena (task_args : gmap string arg)
    params m key recs t :
  AnsibleAWSModule task_args = inr params →
  mode_of task_args = m →
  m ≠ WorkGroups →
  run athena task_args = (Exit (exit_json key recs), t) →
  ∃ good recss,
    pages athena (mode_request m params) = inr <$> good
    ∧ Forall2 (λ page rs, page_records (mode_key m) page = inr rs) good recss
    ∧ recs = concat recss
    ∧ t = fetches (mode_request m params) 0 (length good).
Proof.
  intros Hok Hm Hwg Hrun.
  destruct (can_paginate athena (operation (mode_request m params))) eqn:Hpag.
  - rewrite (run_walk _ _ _ _ Hok Hm Hwg Hpag) in Hrun.
    destruct (walk (mode_key m) (pages athena (mode_request m params)) [])
      as [[e|rs] n] eqn:Hwalk; simpl in Hrun; [discriminate Hrun|].
    destruct (walk_complete (mode_key m) (pages athena (mode_request m params))
                [] rs) as (good & recss & Hpages & Hall & Hrs & Hn).
    { by rewrite Hwalk. }
    rewrite Hwalk in Hn. simpl in Hn, Hrs.
    exists good, recss. repeat split; try done; congruence.
  - rewrite (run_not_pageable _ _ _ _ Hok Hm Hwg Hpag) in Hrun.
    discriminate Hrun.
Qed.

Lemma exit_means_all_pages_witness :
  ∃ good recss,
    pages scenario_client
      (mode_request Catalogs
         (set_defaults argument_spec
            (check_argument_types argument_spec
               (handle_aliases argument_spec ∅))))
    = inr <$> good
    ∧ Forall2 (λ page rs, page_records (mode_key Catalogs) page = inr rs)
        good recss
    ∧ [VDict [("catalog_name", VStr "AwsDataCatalog"); ("type", VStr "GLUE")]]
      = concat recss
    ∧ [PageFetch (Request "list_data_catalogs" []) 0]
      = fetches
          (mode_request Catalogs
             (set_defaults argument_spec
                (check_argument_types argument_spec
                   (handle_aliases argument_spec ∅))))
          0 (length good).
Proof.
  assert (Catalogs ≠ WorkGroups) as Hm by discriminate.
  assert (AnsibleAWSModule ∅
          = inr (set_defaults argument_spec
                   (check_argument_types argument_spec
                      (handle_aliases argument_spec ∅)))) as Hok
    by reflexivity.
  apply (exit_means_all_pages scenario_client ∅ _ Catalogs "catalogs"
           [VDict [("catalog_name", VStr "AwsDataCatalog"); ("type", VStr "GLUE")]]
           [PageFetch (Request "list_data_catalogs" []) 0]
           Hok eq_refl Hm).
  vm_compute. reflexivity.
Defined.

(** X12: work groups are only ever returned from the direct call: a run
    in work-groups mode that ends in [exit_json] was made with a client
    that does not paginate the operation, issued that one call, and
    returns the normalized records of its response. *)
Theorem work_groups_output_from_direct_call athena (task_args : gmap string arg)
    params key recs t :
  AnsibleAWSModule task_args = inr params →
  mode_of task_args = WorkGroups →
  run athena task_args = (Exit (exit_json key recs), t) →
  can_paginate athena "list_work_groups" = false
  ∧ key = "work_groups"
  ∧ t = [ApiCall work_groups_call]
  ∧ ∃ response, call athena work_groups_call = inr response
                ∧ page_records "WorkGroups" response = inr recs.
Proof.
  intros Hok Hm Hrun.
  pose proof (mode_of_iterating_cases _ Hm) as Hwg.
  destruct (can_paginate athena "list_work_groups") eqn:Hpag.
  { rewrite (run_work_groups_paginated _ _ _ Hok Hwg Hpag) in Hrun.
    discriminate Hrun. }
  rewrite (run_work_groups_call _ _ _ Hok Hwg Hpag) in Hrun.
  destruct (call athena work_groups_call) as [e|response] eqn:Hcall;
    [discriminate Hrun|].
  destruct (page_records "WorkGroups" response) as [e|rs] eqn:Hrecs;
    [discriminate Hrun|].
  repeat split; try congruence. exists response. split; congruence.
Qed.

Lemma work_groups_output_from_direct_call_witness :
  can_paginate single_call_client "list_work_groups" = false
  ∧ "work_groups" = "work_groups"
  ∧ [ApiCall work_groups_call] = [ApiCall work_groups_call]
  ∧ ∃ response, call single_call_client work_groups_call = inr response
                ∧ page_records "WorkGroups" response
                  = inr [VDict [("name", VStr "primary");
                                ("state", VStr "ENABLED");
                                ("description", VStr "");
                                ("creation_time",
                                 VStr "2020-12-19T23:39:31.222000+02:00")]].
Proof.
  apply (work_groups_output_from_direct_call single_call_client work_groups_args
           (set_defaults argument_spec
              (check_argument_types argument_spec
                 (handle_aliases argument_spec work_groups_args)))).
  - reflexivity.
  - reflexivity.
  - vm_compute. reflexivity.
Defined.

(** ** When validation passes *)

Lemma filter_nil_Forall {A} (P : A → Prop) `{!∀ x, Decision (P x)} (l : list A) :
  filter P l = [] ↔ Forall (λ x, ¬ P x) l.
Proof.
  induction l as [|x l IH]; [by split|].
  rewrite filter_cons, Forall_cons. case_decide; [|tauto].
  split; [done|]. tauto.
Qed.

Lemma omap_nil_Forall {A B} (f : A → option B) (l : list A) :
  omap f l = [] ↔ Forall (λ x, f x = None) l.
Proof.
  induction l as [|x l IH]; [by split|].
  rewrite Forall_cons. csimpl. destruct (f x); [|tauto].
  split; [done|]. by intros [? _].
Qed.

Lemma count_terms_supplied terms p :
  count_terms terms (handle_aliases argument_spec p)
  = length (filter (λ k, supplied p k) terms).
Proof.
  unfold count_terms. f_equal. apply filter_ext_elem.
  intros k _. unfold supplied. by rewrite bool_decide_spec.
Qed.

Lemma length_filter_cons {A} (P : A → Prop) `{!∀ x, Decision (P x)} x (l : list A) :
  length (filter P (x :: l))
  = ((if decide (P x) then 1 else 0) + length (filter P l))%nat.
Proof. rewrite filter_cons. by case_decide. Qed.

Lemma validation_passes_checks p :
  (∃ params, AnsibleAWSModule p = inr params) ↔
  check_mutually_exclusive mutually_exclusive (handle_aliases argument_spec p) = []
  ∧ check_required_if required_if
      (check_argument_types argument_spec (handle_aliases argument_spec p)) = [].
Proof.
  unfold AnsibleAWSModule. cbv zeta.
  destruct (check_mutually_exclusive _ _).
  - destruct (check_required_if _ _).
    + split; [done|]. intros _. by eexists.
    + split; [by intros [? ?]|]. by intros [_ ?].
  - split; [by intros [? ?]|]. by intros [? _].
Qed.

Lemma mutually_exclusive_passes p :
  check_mutually_exclusive mutually_exclusive (handle_aliases argument_spec p) = []
  ↔ (length (filter (λ k, supplied p k) mode_flags) ≤ 1)%nat
    ∧ (supplied p "list_work_groups" = true →
       supplied p "name" = false ∧ supplied p "database_name" = false).
Proof.
  unfold check_mutually_exclusive. rewrite filter_nil_Forall.
  unfold mutually_exclusive. rewrite !Forall_cons, Forall_nil.
  rewrite !count_terms_supplied. fold mode_flags.
  rewrite !length_filter_cons, filter_nil.
  destruct (supplied p "list_work_groups"), (supplied p "name"),
    (supplied p "database_name"); simpl; split; intros; intuition (try lia; try done).
Qed.

Lemma coerced_flag_iff p k :
  k ∈ mode_flags →
  check_argument_types argument_spec (handle_aliases argument_spec p) !! k
  = Some (ABool true)
  ↔ flag_on p k = true.
Proof.
  intros Hk. split; [by apply coerced_flag_true|].
  intros (v & Hv & Hon)%flag_on_lookup.
  rewrite check_argument_types_lookup, handle_aliases_lookup.
  rewrite (spec_type_flags _ Hk), decide_False, Hv by by apply mode_flag_not_name.
  change (Some (coerce type_bool v) = Some (ABool true)).
  by rewrite coerce_bool_on.
Qed.

Lemma coerced_missing p r :
  count_terms [r]
    (check_argument_types argument_spec (handle_aliases argument_spec p)) = 0
  ↔ supplied p r = false.
Proof.
  rewrite count_terms_single, check_argument_types_lookup.
  unfold supplied. rewrite bool_decide_eq_false, <- eq_None_not_Some.
  destruct (spec_type argument_spec r);
    by destruct (handle_aliases argument_spec p !! r).
Qed.

Lemma required_if_entry_passes (q : gmap string arg) key val reqs :
  (if bool_decide (q !! key = Some val)
   then match filter (λ r, count_terms [r] q = 0) reqs with
        | [] => None
        | (_ :: _) as missing => Some (key, missing)
        end
   else None) = None
  ↔ (q !! key = Some val → Forall (λ r, count_terms [r] q ≠ 0) reqs).
Proof.
  case_bool_decide as Hkey; [|by split].
  rewrite <- (filter_nil_Forall (λ r, count_terms [r] q = 0) reqs).
  destruct (filter _ reqs) as [|x l]; [by split|].
  split; [done|]. intros H. by specialize (H Hkey).
Qed.

Lemma required_if_passes p :
  check_required_if required_if
    (check_argument_types argument_spec (handle_aliases argument_spec p)) = []
  ↔ (flag_on p "list_databases" = true → supplied p "name" = true)
    ∧ (flag_on p "list_database_tables" = true →
       supplied p "name" = true ∧ supplied p "database_name" = true).
Proof.
  unfold check_required_if. rewrite omap_nil_Forall.
  unfold required_if. rewrite !Forall_cons, Forall_nil.
  rewrite !required_if_entry_passes, !Forall_cons, !Forall_nil.
  rewrite !coerced_flag_iff by (unfold mode_flags; set_solver).
  rewrite !coerced_missing.
  destruct (supplied p "name"), (supplied p "database_name");
    split; intros; intuition done.
Qed.

(** X13: validation passes exactly when at most one of the three mode
    flags is supplied, [list_work_groups] is not supplied together with
    [name] or [database_name], [name] is supplied if [list_databases] is
    true, and [name] and [database_name] are supplied if
    [list_database_tables] is true. *)
Theorem validation_passes_iff (task_args : gmap string arg) :
  (∃ params, AnsibleAWSModule task_args = inr params) ↔
  (length (filter (λ k, supplied task_args k) mode_flags) ≤ 1)%nat
  ∧ (supplied task_args "list_work_groups" = true →
     supplied task_args "name" = false
     ∧ supplied task_args "database_name" = false)
  ∧ (flag_on task_args "list_databases" = true →
     supplied task_args "name" = true)
  ∧ (flag_on task_args "list_database_tables" = true →
     supplied task_args "name" = true
     ∧ supplied task_args "database_name" = true).
Proof.
  rewrite validation_passes_checks, mutually_exclusive_passes, required_if_passes.
  tauto.
Qed.

Lemma validation_passes_iff_witness :
  ∃ params, AnsibleAWSModule tables_args = inr params.
Proof.
  apply (proj2 (validation_passes_iff tables_args)).
  split; [vm_compute; lia|].
  split; [vm_compute; discriminate|].
  split; [vm_compute; discriminate|].
  intros _. split; vm_compute; reflexivity.
Defined.
